(** * Gaffer [Process]: computation tracking, monitors and error reporting

    A shallow embedding of [src/Gaffer/Process.cpp].  The translation unit
    owns two pieces of state, the process-wide monitor registry
    [g_activeMonitors] and the per-thread error source [g_errorSource]; it
    reads and writes one field ([m_process]) of the thread state, walks the
    plug graph, and calls out to monitors, to node error signals and to
    [BackgroundTask::cancelAllTasks].  Calls that leave the translation unit
    are recorded, in order, in a trace of events. *)

From stdpp Require Import sorting functions gmap strings list fin_maps.

Open Scope string_scope.
Open Scope list_scope.
Open Scope nat_scope.
Open Scope stdpp_scope.

(** ** Addresses

    Objects are referred to by address.  A non-null pointer is a [positive];
    a pointer that the code tests against [nullptr] is an [option]. *)

Abbreviation MonitorPtr := positive (only parsing).
Abbreviation PlugPtr := positive (only parsing).
Abbreviation NodePtr := positive (only parsing).
Abbreviation ProcessPtr := positive (only parsing).
Abbreviation ThreadId := nat (only parsing).

(** ** [boost::container::flat_set<Monitor *>]

    A flat_set is a vector kept sorted by [std::less] on the keys (here the
    monitors' addresses) and free of duplicates.  Iteration from [begin()]
    to [end()] visits the vector front to back. *)

Module FlatSet.

(** [insert]: the key goes to its sorted position, unless it is there. *)
Fixpoint insert (k : positive) (s : list positive) : list positive :=
  match s with
  | [] => [k]
  | x :: s' =>
      if (k <? x)%positive then k :: x :: s'
      else if (k =? x)%positive then x :: s'
      else x :: insert k s'
  end.

(** [erase( key )]: every element equal to the key is removed. *)
Definition erase (k : positive) (s : list positive) : list positive :=
  filter (λ x, x ≠ k) s.

(** [find]: the position of the key, [None] standing for [end()]. *)
Definition find (k : positive) (s : list positive) : option nat :=
  fst <$> list_find (λ x, x = k) s.

(** The representation invariant: strictly ascending keys. *)
Definition wf (s : list positive) : Prop := StronglySorted Pos.lt s.

End FlatSet.

(** ** The plug graph (declared in Plug.h and Node.h)

    Modelled from the spec: the graph/node/connection-point model is an
    external collaborator.  [Process.cpp] uses three accessors of a plug:
    its direction, the node it belongs to (if any) and its input connection
    (if any). *)

Inductive Direction := In | Out.

Global Instance Direction_eq_dec : EqDecision Direction.
Proof. solve_decision. Defined.

Record Plug := {
  direction : Direction;
  node : option NodePtr;
  getInput : option PlugPtr;
}.

(** ** Thread state (declared in ThreadState.h, Context.h, IECore/Canceller.h)

    Modelled from the spec: the thread-local state container is a single
    mutable cell per thread holding the reference to the current Process,
    plus a cancellation handle reached through the context.  A Process
    holds a scope on it (the [m_threadState] of the source): acquired at
    construction, released at destruction. *)

Record Canceller := { cancelled : bool }.

Record Context := { canceller : option Canceller }.

Record ThreadState := {
  m_context : Context;
  m_process : option ProcessPtr;
}.

(** ** Process objects *)

Record Process := {
  m_type : string;
  m_plug : option PlugPtr;
  m_downstream : option PlugPtr;
  m_parent : option ProcessPtr;
}.

(** ** Exceptions

    The three classes [handleException] tells apart: [IECore::Cancelled],
    anything derived from [std::exception] (with its [what()]), and any
    other thrown object. *)

Inductive Exception :=
| Cancelled
| StdException (what : string)
| Untyped (payload : nat).

Global Instance Exception_eq_dec : EqDecision Exception.
Proof. solve_decision. Defined.

(** ** Calls that leave the translation unit *)

Inductive Event :=
| ProcessStarted (monitor : MonitorPtr) (process : ProcessPtr)
| ProcessFinished (monitor : MonitorPtr) (process : ProcessPtr)
| ErrorSignal (n : NodePtr) (plug : PlugPtr) (source : option PlugPtr)
    (error : string)
| CancelAllTasks.

Global Instance Event_eq_dec : EqDecision Event.
Proof. solve_decision. Defined.

(** ** The state the code runs in *)

Record World := {
  (** [Monitors g_activeMonitors] *)
  g_activeMonitors : list MonitorPtr;
  (** [tbb::enumerable_thread_specific<const Plug *> g_errorSource( nullptr )] *)
  g_errorSource : ThreadId → option PlugPtr;
  (** [ThreadState::current()], per thread *)
  threadState : ThreadId → ThreadState;
  (** the live Process objects, by address *)
  processes : gmap ProcessPtr Process;
  (** the plug graph *)
  graph : PlugPtr → Plug;
  (** the calls made so far, oldest first *)
  trace : list Event;
}.

Definition set_activeMonitors (f : list MonitorPtr → list MonitorPtr)
    (w : World) : World :=
  {| g_activeMonitors := f (g_activeMonitors w);
     g_errorSource := g_errorSource w;
     threadState := threadState w;
     processes := processes w;
     graph := graph w;
     trace := trace w |}.

Definition set_errorSource (t : ThreadId) (v : option PlugPtr)
    (w : World) : World :=
  {| g_activeMonitors := g_activeMonitors w;
     g_errorSource := <[t := v]> (g_errorSource w);
     threadState := threadState w;
     processes := processes w;
     graph := graph w;
     trace := trace w |}.

Definition set_process (t : ThreadId) (v : option ProcessPtr)
    (w : World) : World :=
  {| g_activeMonitors := g_activeMonitors w;
     g_errorSource := g_errorSource w;
     threadState :=
       <[t := {| m_context := m_context (threadState w t); m_process := v |}]>
         (threadState w);
     processes := processes w;
     graph := graph w;
     trace := trace w |}.

Definition set_processes
    (f : gmap ProcessPtr Process → gmap ProcessPtr Process)
    (w : World) : World :=
  {| g_activeMonitors := g_activeMonitors w;
     g_errorSource := g_errorSource w;
     threadState := threadState w;
     processes := f (processes w);
     graph := graph w;
     trace := trace w |}.

Definition log (evs : list Event) (w : World) : World :=
  {| g_activeMonitors := g_activeMonitors w;
     g_errorSource := g_errorSource w;
     threadState := threadState w;
     processes := processes w;
     graph := graph w;
     trace := trace w ++ evs |}.

(** ** A state and exception monad

    A call either returns, or leaves by an exception, or (for the one loop
    whose termination depends on the graph) runs out of fuel.  The state
    survives a throw. *)

Inductive Outcome (A : Type) :=
| Returned (a : A)
| Thrown (e : Exception)
| OutOfFuel.
Arguments Returned {A} a.
Arguments Thrown {A} e.
Arguments OutOfFuel {A}.

Definition M (A : Type) : Type := World → Outcome A * World.

Global Instance M_ret : MRet M := λ A a w, (Returned a, w).

Global Instance M_bind : MBind M := λ A B k m w,
  match m w with
  | (Returned a, w') => k a w'
  | (Thrown e, w') => (Thrown e, w')
  | (OutOfFuel, w') => (OutOfFuel, w')
  end.

Definition throw {A} (e : Exception) : M A := λ w, (Thrown e, w).
Definition out_of_fuel {A} : M A := λ w, (OutOfFuel, w).
Definition gets {A} (f : World → A) : M A := λ w, (Returned (f w), w).
Definition modify (f : World → World) : M unit := λ w, (Returned tt, f w).

(** A range-for over a container. *)
Fixpoint for_each {A} (f : A → M unit) (l : list A) : M unit :=
  match l with
  | [] => mret tt
  | x :: l' => f x ;; for_each f l'
  end.

Definition outcome {A} (r : Outcome A * World) : Outcome A := r.1.
Definition world {A} (r : Outcome A * World) : World := r.2.

(** ** External calls *)

(** [Monitor::processStarted], [Monitor::processFinished]: observers
    implemented elsewhere; the call is recorded. *)
Definition processStarted (monitor : MonitorPtr) (process : ProcessPtr)
    : M unit :=
  modify (log [ProcessStarted monitor process]).

Definition processFinished (monitor : MonitorPtr) (process : ProcessPtr)
    : M unit :=
  modify (log [ProcessFinished monitor process]).

(** [node->errorSignal()( plug, source, error )] *)
Definition errorSignal (n : NodePtr) (plug : PlugPtr)
    (source : option PlugPtr) (error : string) : M unit :=
  modify (log [ErrorSignal n plug source error]).

(** [BackgroundTask::cancelAllTasks()]: the call is recorded.  Its effect,
    cancelling the background tasks and waiting until they are over, takes
    place on the threads of those tasks; the model does not follow it, and
    a thread whose state is looked at after such a call is taken not to
    run a background task. *)
Definition cancelAllTasks : M unit := modify (log [CancelAllTasks]).

(** [IECore::Canceller::check]: throws [Cancelled] when handed a canceller
    on which cancellation has been requested.

    Modelled from the spec: the cancellation handle exposes a check
    operation that fails with a Cancelled signal when cancellation has been
    requested. *)
Definition Canceller_check (c : option Canceller) : M unit :=
  match c with
  | Some c => if cancelled c then throw Cancelled else mret tt
  | None => mret tt
  end.

(** ** [Process.cpp]

    Every function takes the thread [t] it runs on: it selects the thread
    state and the [local()] element of [g_errorSource]. *)

(** [Process::Process( type, plug, downstream )], constructing the object at
    address [this]. *)
Definition Process_ctor (t : ThreadId) (this : ProcessPtr) (type : string)
    (plug downstream : option PlugPtr) : M unit :=
  c ← gets (λ w, canceller (m_context (threadState w t)));
  Canceller_check c;;
  parent ← gets (λ w, m_process (threadState w t));
  modify (set_processes
    <[this := {| m_type := type;
                 m_plug := plug;
                 m_downstream :=
                   match downstream with Some d => Some d | None => plug end;
                 m_parent := parent |}]>);;
  modify (set_process t (Some this));;
  monitors ← gets g_activeMonitors;
  for_each (λ it, processStarted it this) monitors.

(** [Process::parent()] of the object at [this]. *)
Definition parent (this : ProcessPtr) (w : World) : option ProcessPtr :=
  p ← processes w !! this; m_parent p.

(** The body of [Process::~Process()], for the object at [this]. *)
Definition Process_dtor_body (t : ThreadId) (this : ProcessPtr) : M unit :=
  monitors ← gets g_activeMonitors;
  for_each (λ it, processFinished it this) monitors;;
  par ← gets (parent this);
  if par is None then modify (set_errorSource t None) else mret tt.

(** Modelled from the spec: the release of the thread-state scope that the
    Process at [this] holds (the scope is declared in ThreadState.h).  On
    destruction a Process unlinks itself: the thread's current Process is
    again the one that was current when the Process was constructed, its
    parent.  A construction that fails with [Cancelled] has linked nothing,
    and there is nothing to put back. *)
Definition ThreadState_Scope_release (t : ThreadId) (this : ProcessPtr)
    : M unit :=
  par ← gets (parent this);
  modify (set_process t par).

(** The destruction of the Process at [this]: the body of the destructor,
    then the release of the scope it holds; then the object's lifetime is
    over. *)
Definition Process_dtor (t : ThreadId) (this : ProcessPtr) : M unit :=
  Process_dtor_body t this;;
  ThreadState_Scope_release t this;;
  modify (set_processes (delete this)).

(** [Process::current()] *)
Definition current (t : ThreadId) (w : World) : option ProcessPtr :=
  m_process (threadState w t).

(** The loop of [Process::emitError]; [plug] is the loop variable. *)
Fixpoint emitError_loop (fuel : nat) (t : ThreadId) (this : Process)
    (error : string) (plug : option PlugPtr) : M unit :=
  match plug with
  | None => mret tt
  | Some pl =>
      match fuel with
      | O => out_of_fuel
      | S fuel' =>
          p ← gets (λ w, graph w pl);
          (if decide (direction p = Out) then
             match node p with
             | Some n =>
                 source ← gets (λ w, g_errorSource w t);
                 errorSignal n pl source error
             | None => mret tt
             end
           else mret tt);;
          emitError_loop fuel' t this error
            (if decide (Some pl ≠ m_plug this) then getInput p else None)
      end
  end.

(** [Process::emitError( error )] *)
Definition emitError (fuel : nat) (t : ThreadId) (this : Process)
    (error : string) : M unit :=
  emitError_loop fuel t this error (m_downstream this).

(** The two lines shared by the last two handlers of [handleException]. *)
Definition recordErrorSource (t : ThreadId) (this : Process) : M unit :=
  source ← gets (λ w, g_errorSource w t);
  if source is None then modify (set_errorSource t (m_plug this))
  else mret tt.

(** [Process::handleException()], with [e] the active exception. *)
Definition handleException (fuel : nat) (t : ThreadId) (this : Process)
    (e : Exception) : M unit :=
  match e with
  | Cancelled => throw e
  | StdException what =>
      recordErrorSource t this;;
      emitError fuel t this what;;
      throw e
  | Untyped _ =>
      recordErrorSource t this;;
      emitError fuel t this "Unknown error";;
      throw e
  end.

(** [Process::registerMonitor( monitor )] *)
Definition registerMonitor (monitor : MonitorPtr) : M unit :=
  cancelAllTasks;;
  modify (set_activeMonitors (FlatSet.insert monitor)).

(** [Process::deregisterMonitor( monitor )] *)
Definition deregisterMonitor (monitor : MonitorPtr) : M unit :=
  cancelAllTasks;;
  modify (set_activeMonitors (FlatSet.erase monitor)).

(** [Process::monitorRegistered( monitor )] *)
Definition monitorRegistered (monitor : MonitorPtr) (w : World) : bool :=
  bool_decide (FlatSet.find monitor (g_activeMonitors w) ≠ None).

(** ** Sequences of calls, and the notions the specification speaks of *)

(** Whether the cancellation handle of thread [t] reports that cancellation
    has been requested. *)
Definition cancellation_requested (t : ThreadId) (w : World) : bool :=
  match canceller (m_context (threadState w t)) with
  | Some c => cancelled c
  | None => false
  end.

Inductive MonitorOp :=
| Register (monitor : MonitorPtr)
| Deregister (monitor : MonitorPtr).

Definition run_MonitorOp (op : MonitorOp) : M unit :=
  match op with
  | Register m => registerMonitor m
  | Deregister m => deregisterMonitor m
  end.

Definition run_MonitorOps (ops : list MonitorOp) : M unit :=
  for_each run_MonitorOp ops.

(** The monitors registered after [ops], in the order in which they were
    registered (the order the specification speaks of). *)
Fixpoint registration_order (ops : list MonitorOp) (acc : list MonitorPtr)
    : list MonitorPtr :=
  match ops with
  | [] => acc
  | Register m :: ops' =>
      registration_order ops' (if decide (m ∈ acc) then acc else acc ++ [m])
  | Deregister m :: ops' =>
      registration_order ops' (filter (λ x, x ≠ m) acc)
  end.

(** The monitors whose [processStarted] / [processFinished] was called for
    [this], in call order. *)
Definition started_calls (this : ProcessPtr) (tr : list Event)
    : list MonitorPtr :=
  omap (λ ev, match ev with
              | ProcessStarted m p => if decide (p = this) then Some m else None
              | _ => None
              end) tr.

Definition finished_calls (this : ProcessPtr) (tr : list Event)
    : list MonitorPtr :=
  omap (λ ev, match ev with
              | ProcessFinished m p => if decide (p = this) then Some m else None
              | _ => None
              end) tr.

(** A small world to run things in: three nodes in a row.  Plug 1 is the
    output of node 10; plug 2, an output of node 20, is connected to it;
    plug 3, an input of node 30, is connected to plug 2; plug 4 is an
    output that belongs to no node and is connected to plug 3. *)
Definition sample_graph (p : PlugPtr) : Plug :=
  match p with
  | 1 => {| direction := Out; node := Some 10; getInput := None |}
  | 2 => {| direction := Out; node := Some 20; getInput := Some 1 |}
  | 3 => {| direction := In; node := Some 30; getInput := Some 2 |}
  | 4 => {| direction := Out; node := None; getInput := Some 3 |}
  | _ => {| direction := In; node := None; getInput := None |}
  end%positive.

Definition idle_thread (c : option Canceller) : ThreadState :=
  {| m_context := {| canceller := c |}; m_process := None |}.

(** Thread 0 has no canceller, thread 1 a canceller nobody has used, and
    thread 2 a canceller on which cancellation was requested. *)
Definition sample_world (monitors : list MonitorPtr) : World :=
  {| g_activeMonitors := monitors;
     g_errorSource := λ _, None;
     threadState := λ t,
       match t with
       | 0 => idle_thread None
       | 1 => idle_thread (Some {| cancelled := false |})
       | _ => idle_thread (Some {| cancelled := true |})
       end;
     processes := ∅;
     graph := sample_graph;
     trace := [] |}.

(** The registry after a monitor was registered twice and deregistered
    once. *)
Definition register_twice_deregister_once (monitor : MonitorPtr) : M unit :=
  registerMonitor monitor;; registerMonitor monitor;;
  deregisterMonitor monitor.

Inductive ProcessOp :=
| Construct (this : ProcessPtr) (type : string)
    (plug downstream : option PlugPtr)
| Destroy (this : ProcessPtr).

Definition run_ProcessOp (t : ThreadId) (op : ProcessOp) : M unit :=
  match op with
  | Construct this type plug downstream =>
      Process_ctor t this type plug downstream
  | Destroy this => Process_dtor t this
  end.

Definition run_ProcessOps (t : ThreadId) (ops : list ProcessOp) : M unit :=
  for_each (run_ProcessOp t) ops.

Definition is_Construct (op : ProcessOp) : Prop :=
  match op with Construct _ _ _ _ => True | Destroy _ => False end.

(** The addresses constructed by [ops], in construction order. *)
Definition constructed (ops : list ProcessOp) : list ProcessPtr :=
  omap (λ op, match op with
              | Construct this _ _ _ => Some this
              | Destroy _ => None
              end) ops.

(** The Processes constructed and not yet destroyed after [ops], most
    recent first (the stack the specification speaks of); [stack] holds
    those that were live before. *)
Fixpoint not_yet_destroyed (ops : list ProcessOp) (stack : list ProcessPtr)
    : list ProcessPtr :=
  match ops with
  | [] => stack
  | Construct this _ _ _ :: ops' => not_yet_destroyed ops' (this :: stack)
  | Destroy this :: ops' =>
      not_yet_destroyed ops' (filter (λ x, x ≠ this) stack)
  end.

(** [ops] is a chain of nested constructions and destructions over the
    live Processes [stack] (most recent first): a construction takes an
    address that holds no live Process of the chain, a destruction is that
    of the most recently constructed Process not yet destroyed. *)
Fixpoint well_nested (ops : list ProcessOp) (stack : list ProcessPtr)
    : Prop :=
  match ops with
  | [] => True
  | Construct this _ _ _ :: ops' =>
      this ∉ stack ∧ well_nested ops' (this :: stack)
  | Destroy this :: ops' =>
      match stack with
      | top :: rest => this = top ∧ well_nested ops' rest
      | [] => False
      end
  end.

(** [chain] is what following [m_parent] from [p] to the root visits. *)
Inductive parent_chain (objs : gmap ProcessPtr Process)
    : option ProcessPtr → list ProcessPtr → Prop :=
| parent_chain_root : parent_chain objs None []
| parent_chain_link this p chain :
    objs !! this = Some p →
    parent_chain objs (m_parent p) chain →
    parent_chain objs (Some this) (this :: chain).

(** The walk of the specification: start at a point, go upstream through
    each point's input connection, stop at the target point or where there
    is no input. *)
Inductive upstream_walk (g : PlugPtr → Plug) (target : option PlugPtr)
    : option PlugPtr → list PlugPtr → Prop :=
| upstream_walk_none : upstream_walk g target None []
| upstream_walk_target pl :
    Some pl = target →
    upstream_walk g target (Some pl) [pl]
| upstream_walk_input pl visited :
    Some pl ≠ target →
    upstream_walk g target (getInput (g pl)) visited →
    upstream_walk g target (Some pl) (pl :: visited).

(** The error callbacks due along [visited]: one for every output point
    that belongs to a node. *)
Definition error_reports (g : PlugPtr → Plug) (source : option PlugPtr)
    (error : string) (visited : list PlugPtr) : list Event :=
  omap (λ pl, if decide (direction (g pl) = Out)
              then (λ n, ErrorSignal n pl source error) <$> node (g pl)
              else None) visited.

(** The message [handleException] reports for a non-cancellation
    exception. *)
Definition error_message (e : Exception) : string :=
  match e with
  | StdException what => what
  | _ => "Unknown error"
  end.

(** A [try { m } catch( ... ) { h }] block. *)
Definition try_catch (m : M unit) (h : Exception → M unit) : M unit := λ w,
  match m w with
  | (Thrown e, w') => h e w'
  | r => r
  end.

(** One unwind: the exception [e] passes through the catch blocks of the
    nested computations [levels], innermost first; each calls
    [handleException] on its Process, and what that throws goes on to the
    next level out. *)
Fixpoint unwind (fuel : nat) (t : ThreadId) (levels : list Process)
    (e : Exception) : M unit :=
  match levels with
  | [] => throw e
  | this :: outer =>
      try_catch (handleException fuel t this e) (unwind fuel t outer)
  end.

(** Sample Processes: a root computing plug 1 on behalf of plug 4, and two
    computations nested in it. *)
Definition sample_A : Process :=
  {| m_type := "computeNode:compute"; m_plug := Some 1%positive;
     m_downstream := Some 4%positive; m_parent := None |}.

Definition sample_B : Process :=
  {| m_type := "computeNode:hash"; m_plug := Some 2%positive;
     m_downstream := Some 3%positive; m_parent := Some 7%positive |}.

Definition sample_C : Process :=
  {| m_type := "computeNode:compute"; m_plug := Some 3%positive;
     m_downstream := Some 3%positive; m_parent := Some 8%positive |}.

(** The world after [sample_A] was constructed at address 7 on thread 0 and
    its computation failed. *)
Definition sample_failed_root : World :=
  world (handleException 8 0 sample_A (StdException "boom")
    (world (Process_ctor 0 7 "computeNode:compute" (Some 1%positive)
              (Some 4%positive) (sample_world [5; 6]%positive)))).

(** The same with a second Process, a child, constructed at address 8. *)
Definition sample_failed_child : World :=
  world (handleException 8 0 sample_B (StdException "boom")
    (world (Process_ctor 0 8 "computeNode:hash" (Some 2%positive)
              (Some 3%positive)
      (world (Process_ctor 0 7 "computeNode:compute" (Some 1%positive)
                (Some 4%positive) (sample_world [5; 6]%positive)))))).

(** The error source on record once [handleException] of [this] has run
    for a non-cancellation exception, given what was on record before. *)
Definition recorded_source (before : option PlugPtr) (this : Process)
    : option PlugPtr :=
  match before with
  | Some s => Some s
  | None => m_plug this
  end.

(** The walk of [emitError] for [this] ends within [fuel] points. *)
Definition walk_within (fuel : nat) (g : PlugPtr → Plug) (this : Process)
    : Prop :=
  ∃ visited,
    upstream_walk g (m_plug this) (m_downstream this) visited ∧
    length visited ≤ fuel.

(** A whole scenario on thread 0: A, B and C are constructed nested in each
    other at addresses 7, 8 and 9; C's computation throws; the error passes
    through the catch block and the destructor of C, then of B, then
    through the catch block of A.  [sample_unwound] is the world right
    before A is destroyed. *)
Definition sample_nested : World :=
  world (run_ProcessOps 0
    [Construct 7 "computeNode:compute" (Some 1%positive) (Some 4%positive);
     Construct 8 "computeNode:hash" (Some 2%positive) (Some 3%positive);
     Construct 9 "computeNode:compute" (Some 3%positive) None]
    (sample_world [5]%positive)).

Definition sample_unwound : World :=
  let e := StdException "bad" in
  let w1 := world (handleException 4 0 sample_C e sample_nested) in
  let w2 := world (Process_dtor 0 9 w1) in
  let w3 := world (handleException 4 0 sample_B e w2) in
  let w4 := world (Process_dtor 0 8 w3) in
  world (handleException 4 0 sample_A e w4).

(** ** Calls from any thread

    The entry points of [Process.cpp], each with the thread that makes the
    call (the registry is process-wide, so its entry points take none). *)

Inductive Call :=
| CallConstruct (t : ThreadId) (this : ProcessPtr) (type : string)
    (plug downstream : option PlugPtr)
| CallDestroy (t : ThreadId) (this : ProcessPtr)
| CallHandleException (t : ThreadId) (this : Process) (e : Exception)
| CallEmitError (t : ThreadId) (this : Process) (error : string)
| CallRegisterMonitor (monitor : MonitorPtr)
| CallDeregisterMonitor (monitor : MonitorPtr).

Definition run_Call (fuel : nat) (c : Call) : M unit :=
  match c with
  | CallConstruct t this type plug downstream =>
      Process_ctor t this type plug downstream
  | CallDestroy t this => Process_dtor t this
  | CallHandleException t this e => handleException fuel t this e
  | CallEmitError t this error => emitError fuel t this error
  | CallRegisterMonitor m => registerMonitor m
  | CallDeregisterMonitor m => deregisterMonitor m
  end.

(** The world after a series of calls, each left by return or by an
    exception that its caller deals with. *)
Fixpoint run_Calls (fuel : nat) (cs : list Call) (w : World) : World :=
  match cs with
  | [] => w
  | c :: cs' => run_Calls fuel cs' (world (run_Call fuel c w))
  end.

(** The thread a call runs on, when it touches thread-local state. *)
Definition call_thread (c : Call) : option ThreadId :=
  match c with
  | CallConstruct t _ _ _ _ => Some t
  | CallDestroy t _ => Some t
  | CallHandleException t _ _ => Some t
  | CallEmitError t _ _ => Some t
  | CallRegisterMonitor _ => None
  | CallDeregisterMonitor _ => None
  end.

(** [c] is a call made on a thread other than [t]. *)
Definition on_other_thread (t : ThreadId) (c : Call) : Prop :=
  match call_thread c with
  | Some t' => t' ≠ t
  | None => False
  end.

Definition changes_registry (c : Call) : Prop :=
  match c with
  | CallRegisterMonitor _ | CallDeregisterMonitor _ => True
  | _ => False
  end.

(** The monitor calls due for one construction or destruction, with
    [monitors] registered. *)
Definition notifications (monitors : list MonitorPtr) (op : ProcessOp)
    : list Event :=
  match op with
  | Construct this _ _ _ => (λ m, ProcessStarted m this) <$> monitors
  | Destroy this => (λ m, ProcessFinished m this) <$> monitors
  end.

(** How often [processStarted] / [processFinished] of [monitor] was
    called. *)
Definition is_started_by (monitor : MonitorPtr) (ev : Event) : bool :=
  match ev with
  | ProcessStarted m _ => bool_decide (m = monitor)
  | _ => false
  end.

Definition is_finished_by (monitor : MonitorPtr) (ev : Event) : bool :=
  match ev with
  | ProcessFinished m _ => bool_decide (m = monitor)
  | _ => false
  end.

Definition count_started (monitor : MonitorPtr) (tr : list Event) : nat :=
  length (filter (λ ev, is_started_by monitor ev) tr).

Definition count_finished (monitor : MonitorPtr) (tr : list Event) : nat :=
  length (filter (λ ev, is_finished_by monitor ev) tr).

(** The target point of the innermost level that has one. *)
Fixpoint first_target (levels : list Process) : option PlugPtr :=
  match levels with
  | [] => None
  | this :: outer =>
      match m_plug this with
      | Some pl => Some pl
      | None => first_target outer
      end
  end.

(** A graph with a cycle: the output plugs 1 (of node 10) and 2 (of node
    20) have each other as input. *)
Definition cyclic_graph (p : PlugPtr) : Plug :=
  match p with
  | 1 => {| direction := Out; node := Some 10; getInput := Some 2 |}
  | 2 => {| direction := Out; node := Some 20; getInput := Some 1 |}
  | _ => {| direction := In; node := None; getInput := None |}
  end%positive.

Definition cyclic_world : World :=
  {| g_activeMonitors := [];
     g_errorSource := λ _, None;
     threadState := λ _, idle_thread None;
     processes := ∅;
     graph := cyclic_graph;
     trace := [] |}.

(** A Process whose target, plug 3, is not on the way upstream from its
    downstream plug 1. *)
Definition sample_off_path : Process :=
  {| m_type := "computeNode:compute"; m_plug := Some 3%positive;
     m_downstream := Some 1%positive; m_parent := None |}.

(** A Process constructed with neither plug. *)
Definition sample_no_plug : Process :=
  {| m_type := "computeNode:compute"; m_plug := None;
     m_downstream := None; m_parent := Some 9%positive |}.

(** The addresses destroyed by [ops], in destruction order. *)
Definition destroyed (ops : list ProcessOp) : list ProcessPtr :=
  omap (λ op, match op with
              | Construct _ _ _ _ => None
              | Destroy this => Some this
              end) ops.

(** Whether [monitor] is registered after the calls [cs], as a set would
    have it: the last registration or deregistration of [monitor] decides;
    [before] when there is none. *)
Fixpoint registered_after (cs : list Call) (monitor : MonitorPtr)
    (before : bool) : bool :=
  match cs with
  | [] => before
  | c :: cs' =>
      registered_after cs' monitor
        match c with
        | CallRegisterMonitor m =>
            if decide (m = monitor) then true else before
        | CallDeregisterMonitor m =>
            if decide (m = monitor) then false else before
        | _ => before
        end
  end.

(** ** Facts about the flat_set operations *)

Module FlatSetFacts.

Lemma elem_of_insert k s x : x ∈ FlatSet.insert k s ↔ x = k ∨ x ∈ s.
Proof.
  induction s as [|y s IH]; simpl.
  - rewrite list_elem_of_singleton. set_solver.
  - destruct (Pos.ltb_spec k y) as [Hlt|Hge].
    + set_solver.
    + destruct (Pos.eqb_spec k y) as [->|Hne].
      * set_solver.
      * rewrite !elem_of_cons, IH. tauto.
Qed.

Lemma elem_of_erase k s x : x ∈ FlatSet.erase k s ↔ x ≠ k ∧ x ∈ s.
Proof. unfold FlatSet.erase. by rewrite list_elem_of_filter. Qed.

Lemma find_is_Some k s : is_Some (FlatSet.find k s) ↔ k ∈ s.
Proof.
  unfold FlatSet.find. rewrite fmap_is_Some. split.
  - intros [[i x] H]. apply list_find_Some in H as (Hl & -> & _).
    eapply list_elem_of_lookup_2; eauto.
  - intros H. by apply (list_find_elem_of (λ x, x = k) s k).
Qed.

Lemma wf_nil : FlatSet.wf [].
Proof. constructor. Qed.

Lemma wf_insert k s : FlatSet.wf s → FlatSet.wf (FlatSet.insert k s).
Proof.
  unfold FlatSet.wf. induction s as [|y s IH]; simpl; intros Hs.
  - repeat constructor.
  - apply StronglySorted_inv in Hs as [Hs Hy].
    destruct (Pos.ltb_spec k y) as [Hlt|Hge].
    + constructor; [by constructor|].
      constructor; [done|].
      eapply list.Forall_impl; [exact Hy|]. intros z Hz. simpl in Hz. lia.
    + destruct (Pos.eqb_spec k y) as [->|Hne]; [by constructor|].
      constructor; [by apply IH|].
      apply list.Forall_forall. intros z Hz.
      apply elem_of_insert in Hz as [->|Hz]; [lia|].
      rewrite list.Forall_forall in Hy. by apply Hy.
Qed.

Lemma wf_erase k s : FlatSet.wf s → FlatSet.wf (FlatSet.erase k s).
Proof.
  unfold FlatSet.wf, FlatSet.erase. induction 1 as [|y s Hs IH Hy].
  - constructor.
  - rewrite filter_cons. case_decide; [|done].
    constructor; [done|].
    apply list.Forall_forall. intros z Hz.
    apply list_elem_of_filter in Hz as [_ Hz].
    rewrite list.Forall_forall in Hy. by apply Hy.
Qed.

Lemma wf_NoDup s : FlatSet.wf s → NoDup s.
Proof.
  induction 1 as [|y s Hs IH Hy]; constructor; [|done].
  intros Hin. rewrite list.Forall_forall in Hy. specialize (Hy _ Hin). lia.
Qed.

End FlatSetFacts.

(** ** Equations of the monad and of the external calls *)

Ltac munfold :=
  unfold mbind, M_bind, mret, M_ret, gets, modify, throw, out_of_fuel.

Lemma bind_Returned {A B} (m : M A) (k : A → M B) w a w' :
  m w = (Returned a, w') → (m ≫= k) w = k a w'.
Proof. intros H. unfold mbind, M_bind. by rewrite H. Qed.

Lemma log_nil w : log [] w = w.
Proof. destruct w. unfold log. simpl. by rewrite app_nil_r. Qed.

Lemma log_log evs1 evs2 w : log evs2 (log evs1 w) = log (evs1 ++ evs2) w.
Proof. unfold log. simpl. by rewrite app_assoc. Qed.

Lemma for_each_log {A} (f : A → M unit) (ev : A → Event) l w :
  (∀ x w', f x w' = (Returned tt, log [ev x] w')) →
  for_each f l w = (Returned tt, log (ev <$> l) w).
Proof.
  intros Hf. revert w. induction l as [|x l IH]; intros w; simpl.
  - munfold. by rewrite log_nil.
  - munfold. rewrite Hf. fold (for_each f l). rewrite IH.
    by rewrite log_log.
Qed.

Lemma Process_ctor_cancelled t this type plug downstream w :
  cancellation_requested t w = true →
  Process_ctor t this type plug downstream w = (Thrown Cancelled, w).
Proof.
  unfold cancellation_requested, Process_ctor, Canceller_check. munfold.
  destruct (canceller _) as [[c]|]; simpl; [|done]. by intros ->.
Qed.

Lemma Process_ctor_runs t this type plug downstream w :
  cancellation_requested t w = false →
  Process_ctor t this type plug downstream w =
    (Returned tt,
     log ((λ it, ProcessStarted it this) <$> g_activeMonitors w)
       (set_process t (Some this)
          (set_processes
             <[this := {| m_type := type;
                          m_plug := plug;
                          m_downstream :=
                            match downstream with
                            | Some d => Some d
                            | None => plug
                            end;
                          m_parent := current t w |}]> w))).
Proof.
  intros Hc. unfold Process_ctor.
  assert (Hcheck : Canceller_check
            (canceller (m_context (threadState w t))) w = (Returned tt, w)).
  { unfold cancellation_requested in Hc. unfold Canceller_check.
    destruct (canceller _) as [[c]|]; simpl in *; [|done]. by rewrite Hc. }
  munfold. rewrite Hcheck. simpl.
  by rewrite (for_each_log _ (λ it, ProcessStarted it this)).
Qed.

Lemma Process_dtor_body_runs t this w :
  Process_dtor_body t this w =
    (Returned tt,
     (if parent this w is None then set_errorSource t None else id)
       (log ((λ it, ProcessFinished it this) <$> g_activeMonitors w) w)).
Proof.
  unfold Process_dtor_body. munfold.
  rewrite (for_each_log _ (λ it, ProcessFinished it this)) by done.
  simpl. unfold parent. simpl. by destruct (_ ≫= _).
Qed.

Lemma ThreadState_Scope_release_runs t this w :
  ThreadState_Scope_release t this w =
    (Returned tt, set_process t (parent this w) w).
Proof. reflexivity. Qed.

Lemma Process_dtor_runs t this w :
  Process_dtor t this w =
    (Returned tt,
     set_processes (delete this)
       (set_process t (parent this w)
          ((if parent this w is None then set_errorSource t None else id)
             (log ((λ it, ProcessFinished it this) <$> g_activeMonitors w)
                w)))).
Proof.
  unfold Process_dtor.
  rewrite (bind_Returned _ _ _ _ _ (Process_dtor_body_runs t this w)).
  unfold ThreadState_Scope_release. munfold. unfold parent. simpl.
  destruct (processes w !! this ≫= λ p, m_parent p) eqn:E; simpl;
    by rewrite E.
Qed.

Lemma Process_ctor_errorSource t this type plug downstream w :
  g_errorSource (world (Process_ctor t this type plug downstream w)) =
  g_errorSource w.
Proof.
  destruct (cancellation_requested t w) eqn:Hc.
  - by rewrite Process_ctor_cancelled.
  - by rewrite Process_ctor_runs.
Qed.

Lemma monitorRegistered_true monitor w :
  monitorRegistered monitor w = true ↔ monitor ∈ g_activeMonitors w.
Proof.
  unfold monitorRegistered. rewrite bool_decide_eq_true.
  rewrite <- FlatSetFacts.find_is_Some, <- not_eq_None_Some. done.
Qed.

Lemma monitorRegistered_false monitor w :
  monitorRegistered monitor w = false ↔ monitor ∉ g_activeMonitors w.
Proof.
  rewrite <- monitorRegistered_true. by destruct (monitorRegistered _ _).
Qed.

Lemma registerMonitor_runs monitor w :
  registerMonitor monitor w =
    (Returned tt,
     set_activeMonitors (FlatSet.insert monitor) (log [CancelAllTasks] w)).
Proof. reflexivity. Qed.

Lemma deregisterMonitor_runs monitor w :
  deregisterMonitor monitor w =
    (Returned tt,
     set_activeMonitors (FlatSet.erase monitor) (log [CancelAllTasks] w)).
Proof. reflexivity. Qed.

(** * Process construction under cancellation *)

(** C1: constructing a Process on a thread whose cancellation handle reports
    that cancellation has been requested fails with [Cancelled] before any
    stack linkage and before any monitor notification: the thread's current
    process is unchanged, no object is linked in, and no call at all (so no
    [processStarted]) is made. *)
Theorem Process_ctor_cancelled_before_linkage
    t this type plug downstream w :
  cancellation_requested t w = true →
  let r := Process_ctor t this type plug downstream w in
  outcome r = Thrown Cancelled ∧
  current t (world r) = current t w ∧
  threadState (world r) = threadState w ∧
  processes (world r) = processes w ∧
  trace (world r) = trace w ∧
  started_calls this (trace (world r)) = started_calls this (trace w).
Proof.
  intros Hc r. subst r. by rewrite Process_ctor_cancelled.
Qed.

Lemma Process_ctor_cancelled_before_linkage_witness :
  cancellation_requested 2 (sample_world [5; 6]%positive) = true ∧
  let r := Process_ctor 2 7 "compute" (Some 1%positive) None
             (sample_world [5; 6]%positive) in
  outcome r = Thrown Cancelled ∧
  current 2 (world r) = current 2 (sample_world [5; 6]%positive) ∧
  threadState (world r) = threadState (sample_world [5; 6]%positive) ∧
  processes (world r) = processes (sample_world [5; 6]%positive) ∧
  trace (world r) = trace (sample_world [5; 6]%positive) ∧
  started_calls 7 (trace (world r)) =
    started_calls 7 (trace (sample_world [5; 6]%positive)).
Proof.
  split; [reflexivity|].
  apply (Process_ctor_cancelled_before_linkage 2 7 "compute"
           (Some 1%positive) None (sample_world [5; 6]%positive)).
  reflexivity.
Defined.

(** * Cancellation is not an error *)

(** C5: when the active exception is [Cancelled], [handleException] rethrows
    it unchanged; no error source is recorded and no error is emitted (the
    world, and with it the trace of calls, is left as it was), whatever the
    graph looks like. *)
Theorem handleException_Cancelled fuel t this w :
  let r := handleException fuel t this Cancelled w in
  outcome r = Thrown Cancelled ∧
  g_errorSource (world r) = g_errorSource w ∧
  trace (world r) = trace w ∧
  world r = w.
Proof. by cbv zeta. Qed.

(** * The monitor registry is a set *)

(** C9, as stated, fails: after registering monitor 1 twice and
    deregistering it once, [monitorRegistered] returns false. *)
Lemma register_twice_deregister_once_not_registered :
  monitorRegistered 1
    (world (register_twice_deregister_once 1 (sample_world []))) = false ∧
  monitorRegistered 1
    (world (register_twice_deregister_once 1 (sample_world []))) ≠ true.
Proof. split; [reflexivity | discriminate]. Qed.

(** C9, amended: registering the same monitor twice and then deregistering
    it once leaves it unregistered ([monitorRegistered] returns false: the
    registry is a set, not a counter); and deregistering a monitor that is
    not registered leaves [monitorRegistered] false. *)
Theorem deregisterMonitor_once_unregisters monitor w :
  monitorRegistered monitor
    (world (register_twice_deregister_once monitor w)) = false ∧
  (monitorRegistered monitor w = false →
   monitorRegistered monitor (world (deregisterMonitor monitor w)) = false).
Proof.
  split.
  - unfold register_twice_deregister_once. munfold.
    rewrite !registerMonitor_runs, deregisterMonitor_runs. simpl.
    apply monitorRegistered_false. simpl.
    rewrite FlatSetFacts.elem_of_erase. tauto.
  - intros _. rewrite deregisterMonitor_runs. simpl.
    apply monitorRegistered_false. simpl.
    rewrite FlatSetFacts.elem_of_erase. tauto.
Qed.

Lemma deregisterMonitor_once_unregisters_witness :
  monitorRegistered 3 (sample_world [5]%positive) = false ∧
  monitorRegistered 3
    (world (register_twice_deregister_once 3 (sample_world [5]%positive)))
    = false ∧
  monitorRegistered 3
    (world (deregisterMonitor 3 (sample_world [5]%positive))) = false.
Proof.
  split; [reflexivity|].
  destruct (deregisterMonitor_once_unregisters 3 (sample_world [5]%positive))
    as [H1 H2].
  split; [exact H1 | apply H2; reflexivity].
Defined.

(** * Destruction *)

(** C10, as stated, fails: a Process constructed on an idle thread is the
    current Process right before it is destroyed; afterwards the slot holds
    none, not the destroyed Process. *)
Lemma current_after_destruction_is_not_the_destroyed :
  let w1 := world (Process_ctor 0 7 "computeNode:compute" (Some 1%positive)
                     None (sample_world [5]%positive)) in
  let w2 := world (Process_dtor 0 7 w1) in
  current 0 w1 = Some 7%positive ∧
  current 0 w2 = None ∧
  current 0 w2 ≠ current 0 w1.
Proof. vm_compute. repeat split. discriminate. Qed.

(** C10, amended: the body of the destructor does not modify the
    current-process reference of any thread: when the body has run, every
    slot holds what it held before (the Process being destroyed, if it was
    current) and the object is still there.  Restoring the slot to the
    parent is not done by the body but by the release of the thread-state
    scope, which runs at destruction after the body: once the Process is
    destroyed, the slot of its thread holds its parent (none for a root),
    and the slots of the other threads hold what they held. *)
Theorem Process_dtor_body_keeps_current t this w :
  let body := Process_dtor_body t this w in
  let r := Process_dtor t this w in
  outcome body = Returned tt ∧
  threadState (world body) = threadState w ∧
  (∀ t', current t' (world body) = current t' w) ∧
  processes (world body) = processes w ∧
  outcome r = Returned tt ∧
  world r =
    set_processes (delete this)
      (world (ThreadState_Scope_release t this (world body))) ∧
  current t (world r) = parent this w ∧
  (∀ t', t' ≠ t → current t' (world r) = current t' w) ∧
  processes (world r) !! this = None.
Proof.
  cbv zeta.
  rewrite Process_dtor_runs, Process_dtor_body_runs,
    ThreadState_Scope_release_runs.
  unfold outcome, world, current.
  destruct (parent this w) as [par|] eqn:E; unfold parent in *; simpl;
    rewrite ?E; simpl;
    (repeat split; try done;
     [ by rewrite fn_lookup_insert
     | intros t' Hne; by rewrite fn_lookup_insert_ne
     | apply lookup_delete_eq ]).
Qed.

Lemma Process_dtor_body_keeps_current_witness :
  let w := world (Process_ctor 0 8 "computeNode:hash" (Some 2%positive) None
             (world (Process_ctor 0 7 "computeNode:compute"
                       (Some 1%positive) None (sample_world [5]%positive))))
  in
  (1 ≠ 0) ∧
  current 0 w = Some 8%positive ∧
  current 0 (world (Process_dtor_body 0 8 w)) = Some 8%positive ∧
  current 0 (world (Process_dtor 0 8 w)) = Some 7%positive ∧
  current 1 (world (Process_dtor 0 8 w)) = None.
Proof.
  cbv zeta.
  assert (Hne : 1 ≠ 0) by discriminate.
  pose proof (Process_dtor_body_keeps_current 0 8
    (world (Process_ctor 0 8 "computeNode:hash" (Some 2%positive) None
       (world (Process_ctor 0 7 "computeNode:compute"
                 (Some 1%positive) None (sample_world [5]%positive))))))
    as (_ & _ & Hbody & _ & _ & _ & Hcur & Hother & _).
  split; [exact Hne|]. split; [reflexivity|].
  split; [rewrite (Hbody 0); reflexivity|].
  split; [rewrite Hcur; reflexivity|].
  rewrite (Hother 1 Hne). reflexivity.
Defined.

(** C8: destroying a Process that has no parent clears the error source of
    the thread, and a root computation constructed next on that thread
    finds none recorded; destroying a Process that has a parent leaves the
    recorded error source as it is. *)
Theorem Process_dtor_errorSource t this p w :
  processes w !! this = Some p →
  let w' := world (Process_dtor t this w) in
  (m_parent p = None →
   g_errorSource w' t = None ∧
   ∀ this' type plug downstream,
     g_errorSource
       (world (Process_ctor t this' type plug downstream w')) t = None) ∧
  (m_parent p ≠ None → g_errorSource w' = g_errorSource w) ∧
  (∀ t', t' ≠ t → g_errorSource w' t' = g_errorSource w t').
Proof.
  intros Hp. cbv zeta. set (w' := world (Process_dtor t this w)).
  assert (Hw' : g_errorSource w' =
                if m_parent p is None then <[t := None]> (g_errorSource w)
                else g_errorSource w).
  { subst w'. rewrite Process_dtor_runs. unfold world, parent.
    rewrite Hp. simpl. by destruct (m_parent p). }
  clearbody w'. destruct (m_parent p) as [par|].
  - repeat split; try done. intros t' _. by rewrite Hw'.
  - split; [intros _|split; [done|]].
    + split; [rewrite Hw'; apply fn_lookup_insert|]. intros.
      rewrite Process_ctor_errorSource, Hw'. apply fn_lookup_insert.
    + intros t' Hne. rewrite Hw'. by apply fn_lookup_insert_ne.
Qed.

Lemma Process_dtor_errorSource_witness :
  processes sample_failed_root !! 7%positive = Some sample_A ∧
  g_errorSource sample_failed_root 0 = Some 1%positive ∧
  g_errorSource (world (Process_dtor 0 7 sample_failed_root)) 0 = None ∧
  processes sample_failed_child !! 8%positive = Some sample_B ∧
  g_errorSource (world (Process_dtor 0 8 sample_failed_child)) 0
    = Some 2%positive.
Proof.
  assert (HA : processes sample_failed_root !! 7%positive = Some sample_A)
    by reflexivity.
  assert (HB : processes sample_failed_child !! 8%positive = Some sample_B)
    by reflexivity.
  pose proof (Process_dtor_errorSource 0 7 sample_A sample_failed_root HA)
    as (Hroot & _ & _).
  pose proof (Process_dtor_errorSource 0 8 sample_B sample_failed_child HB)
    as (_ & Hchild & _).
  split; [exact HA|]. split; [vm_compute; reflexivity|].
  split; [exact (proj1 (Hroot eq_refl))|].
  split; [exact HB|].
  rewrite Hchild; [vm_compute; reflexivity | discriminate].
Defined.

(** * Monitor notification *)

Lemma run_MonitorOp_runs op w :
  ∃ w', run_MonitorOp op w = (Returned tt, w') ∧
        threadState w' = threadState w ∧
        (FlatSet.wf (g_activeMonitors w) → FlatSet.wf (g_activeMonitors w')).
Proof.
  destruct op as [m|m]; simpl.
  - rewrite registerMonitor_runs. eexists. split; [done|]. split; [done|].
    simpl. apply FlatSetFacts.wf_insert.
  - rewrite deregisterMonitor_runs. eexists. split; [done|]. split; [done|].
    simpl. apply FlatSetFacts.wf_erase.
Qed.

Lemma run_MonitorOps_runs ops w :
  ∃ w', run_MonitorOps ops w = (Returned tt, w') ∧
        threadState w' = threadState w ∧
        (FlatSet.wf (g_activeMonitors w) → FlatSet.wf (g_activeMonitors w')).
Proof.
  revert w. induction ops as [|op ops IH]; intros w.
  - by exists w.
  - destruct (run_MonitorOp_runs op w) as (w1 & Hrun1 & Hts1 & Hwf1).
    destruct (IH w1) as (w' & Hrun & Hts & Hwf).
    exists w'. split; [|split].
    + change (run_MonitorOps (op :: ops) w)
        with ((run_MonitorOp op ≫= λ _, run_MonitorOps ops) w).
      by rewrite (bind_Returned _ _ _ _ _ Hrun1).
    + by rewrite Hts.
    + auto.
Qed.

(** C7, as stated, fails: with monitor 2 registered before monitor 1, the
    start of a Process is notified to monitor 1 first. *)
Lemma notification_order_is_not_registration_order :
  let ops := [Register 2; Register 1]%positive in
  let w1 := world (run_MonitorOps ops (sample_world [])) in
  let w2 := world (Process_ctor 0 7 "compute" (Some 1%positive) None w1) in
  let w3 := world (Process_dtor 0 7 w2) in
  registration_order ops [] = [2; 1]%positive ∧
  started_calls 7 (trace w2) = [1; 2]%positive ∧
  finished_calls 7 (trace w3) = [1; 2]%positive ∧
  started_calls 7 (trace w2) ≠ registration_order ops [] ∧
  finished_calls 7 (trace w3) ≠ registration_order ops [].
Proof. vm_compute. repeat split; discriminate. Qed.

(** C7, amended: for every Process start and finish event every registered
    monitor is notified, exactly once, and the notifications for a single
    event occur in ascending order of the monitors' addresses (the order of
    the flat_set), whatever the order of registration. *)
Theorem monitors_notified_in_address_order
    t this type plug downstream ops w :
  FlatSet.wf (g_activeMonitors w) →
  cancellation_requested t w = false →
  let w1 := world (run_MonitorOps ops w) in
  let w2 := world (Process_ctor t this type plug downstream w1) in
  let w3 := world (Process_dtor t this w2) in
  let ms := g_activeMonitors w1 in
  (∀ m, m ∈ ms ↔ monitorRegistered m w1 = true) ∧
  StronglySorted Pos.lt ms ∧
  NoDup ms ∧
  trace w2 = trace w1 ++ ((λ m, ProcessStarted m this) <$> ms) ∧
  trace w3 = trace w2 ++ ((λ m, ProcessFinished m this) <$> ms).
Proof.
  intros Hwf Hc. cbv zeta.
  destruct (run_MonitorOps_runs ops w) as (w1 & Hrun & Hts & Hwf1).
  rewrite Hrun. unfold world at 1 2 3 4 5 6. simpl.
  specialize (Hwf1 Hwf).
  assert (Hc1 : cancellation_requested t w1 = false).
  { unfold cancellation_requested in *. by rewrite Hts. }
  rewrite Process_dtor_runs, Process_ctor_runs by done.
  unfold world. simpl.
  split; [intros m; by rewrite monitorRegistered_true|].
  split; [exact Hwf1|]. split; [by apply FlatSetFacts.wf_NoDup|].
  split; [done|].
  by destruct (parent this _).
Qed.

Lemma monitors_notified_in_address_order_witness :
  FlatSet.wf (g_activeMonitors (sample_world [])) ∧
  cancellation_requested 1 (sample_world []) = false ∧
  let ops := [Register 6; Register 2; Deregister 6; Register 1]%positive in
  let w1 := world (run_MonitorOps ops (sample_world [])) in
  let w2 := world (Process_ctor 1 7 "compute" (Some 1%positive) None w1) in
  let w3 := world (Process_dtor 1 7 w2) in
  let ms := g_activeMonitors w1 in
  (∀ m, m ∈ ms ↔ monitorRegistered m w1 = true) ∧
  StronglySorted Pos.lt ms ∧
  NoDup ms ∧
  trace w2 = trace w1 ++ ((λ m, ProcessStarted m 7%positive) <$> ms) ∧
  trace w3 = trace w2 ++ ((λ m, ProcessFinished m 7%positive) <$> ms).
Proof.
  split; [apply FlatSetFacts.wf_nil|]. split; [reflexivity|].
  apply (monitors_notified_in_address_order 1 7 "compute" (Some 1%positive)
           None [Register 6; Register 2; Deregister 6; Register 1]%positive
           (sample_world [])).
  - apply FlatSetFacts.wf_nil.
  - reflexivity.
Defined.

(** * The stack of Processes of a thread *)

Lemma parent_chain_insert_fresh objs this p start chain :
  objs !! this = None →
  parent_chain objs start chain →
  parent_chain (<[this := p]> objs) start chain.
Proof.
  intros Hfresh. induction 1 as [|this' p' chain Hlook _ IH].
  - constructor.
  - econstructor; [|exact IH].
    rewrite lookup_insert_ne; [done|]. congruence.
Qed.

Lemma Process_ctor_links t this type plug downstream w chain :
  cancellation_requested t w = false →
  processes w !! this = None →
  parent_chain (processes w) (current t w) chain →
  let w' := world (Process_ctor t this type plug downstream w) in
  parent_chain (processes w') (current t w') (this :: chain).
Proof.
  intros Hc Hfresh Hchain. cbv zeta. rewrite Process_ctor_runs by done.
  unfold world, current. simpl. rewrite fn_lookup_insert. simpl.
  econstructor; [apply lookup_insert_eq|]. simpl.
  by apply parent_chain_insert_fresh.
Qed.

Lemma parent_chain_head objs start chain :
  parent_chain objs start chain → start = head chain.
Proof. by destruct 1. Qed.

Lemma parent_chain_det objs start chain1 chain2 :
  parent_chain objs start chain1 →
  parent_chain objs start chain2 →
  chain1 = chain2.
Proof.
  intros H1. revert chain2.
  induction H1 as [|this p chain Hlook _ IH]; intros chain2 H2.
  - by inversion H2.
  - inversion H2 as [|this' p' chain' Hlook' Hrest]; subst.
    rewrite Hlook in Hlook'. injection Hlook' as <-.
    f_equal. by apply IH.
Qed.

Lemma parent_chain_from objs start chain this :
  parent_chain objs start chain →
  this ∈ chain →
  ∃ chain', parent_chain objs (Some this) (this :: chain') ∧
            length chain' < length chain.
Proof.
  induction 1 as [|this' p chain Hlook Hrest IH]; intros Hin.
  - by apply elem_of_nil in Hin.
  - apply elem_of_cons in Hin as [->|Hin].
    + exists chain. split; [by econstructor|simpl; lia].
    + destruct (IH Hin) as (chain' & Hchain' & Hlen).
      exists chain'. split; [done|simpl; lia].
Qed.

Lemma parent_chain_NoDup objs start chain :
  parent_chain objs start chain → NoDup chain.
Proof.
  induction 1 as [|this p chain Hlook Hrest IH]; [constructor|].
  constructor; [|done]. intros Hin.
  destruct (parent_chain_from _ _ _ _ Hrest Hin) as (chain' & Hchain' & Hlen).
  assert (Hall : parent_chain objs (Some this) (this :: chain))
    by (by econstructor).
  pose proof (parent_chain_det _ _ _ _ Hchain' Hall) as Heq.
  injection Heq as ->. lia.
Qed.

Lemma parent_chain_delete objs this start chain :
  this ∉ chain →
  parent_chain objs start chain →
  parent_chain (delete this objs) start chain.
Proof.
  intros Hnotin. induction 1 as [|this' p chain Hlook _ IH].
  - constructor.
  - apply not_elem_of_cons in Hnotin as [Hne Hnotin].
    econstructor; [|by apply IH].
    by rewrite lookup_delete_ne.
Qed.

Lemma Process_dtor_unlinks t this w rest :
  parent_chain (processes w) (current t w) (this :: rest) →
  ∃ w', Process_dtor t this w = (Returned tt, w') ∧
        processes w' = delete this (processes w) ∧
        cancellation_requested t w' = cancellation_requested t w ∧
        parent_chain (processes w') (current t w') rest.
Proof.
  intros Hchain. pose proof (parent_chain_NoDup _ _ _ Hchain) as Hnd.
  apply NoDup_cons in Hnd as [Hnotin _].
  inversion Hchain as [|this' p chain Hlook Hrest]; subst.
  rewrite Process_dtor_runs. eexists. split; [done|].
  unfold current, cancellation_requested, parent. rewrite Hlook.
  change (Some p ≫= λ p0, m_parent p0) with (m_parent p) in *.
  destruct (m_parent p) as [par|] eqn:Hpar; simpl;
    rewrite fn_lookup_insert; simpl;
    (split; [done|]; split; [done|]; by apply parent_chain_delete).
Qed.

Lemma not_yet_destroyed_top (this : positive) (rest : list positive) :
  this ∉ rest → filter (λ x, x ≠ this) (this :: rest) = rest.
Proof.
  intros Hnotin. rewrite filter_cons_False by (intros H; by apply H).
  induction rest as [|y rest IH]; [done|].
  apply not_elem_of_cons in Hnotin as [Hne Hnotin].
  rewrite filter_cons_True by done. by rewrite IH.
Qed.

Lemma not_yet_destroyed_constructions ops stack :
  Forall is_Construct ops →
  not_yet_destroyed ops stack = reverse (constructed ops) ++ stack.
Proof.
  revert stack. induction ops as [|op ops IH]; intros stack Hall; [done|].
  apply Forall_cons in Hall as [Hop Hall].
  destruct op; [|done]. simpl.
  rewrite IH by done. by rewrite reverse_cons, <- app_assoc.
Qed.

Lemma run_ProcessOps_nested t ops :
  ∀ w stack,
    cancellation_requested t w = false →
    parent_chain (processes w) (current t w) stack →
    well_nested ops stack →
    (∀ this, this ∈ constructed ops → this ∉ stack →
             processes w !! this = None) →
    ∃ w', run_ProcessOps t ops w = (Returned tt, w') ∧
          parent_chain (processes w') (current t w')
            (not_yet_destroyed ops stack).
Proof.
  induction ops as [|op ops IH]; intros w stack Hc Hchain Hnested Hfresh.
  - by exists w.
  - change (run_ProcessOps t (op :: ops) w)
      with ((run_ProcessOp t op ≫= λ _, run_ProcessOps t ops) w).
    destruct op as [this type plug downstream|this].
    + destruct Hnested as [Hnotin Hnested].
      assert (Hnone : processes w !! this = None).
      { apply Hfresh; [|done]. simpl. by left. }
      pose proof (Process_ctor_links t this type plug downstream w stack Hc
                    Hnone Hchain) as Hlink.
      cbv zeta in Hlink. simpl run_ProcessOp.
      rewrite (bind_Returned _ _ _ _ _
                 (Process_ctor_runs t this type plug downstream w Hc)).
      rewrite Process_ctor_runs in Hlink by done. unfold world in Hlink.
      simpl in Hlink. simpl not_yet_destroyed.
      apply IH; try done.
      * unfold cancellation_requested in *. simpl.
        rewrite fn_lookup_insert. by simpl.
      * intros this' Hin Hnotin'. simpl.
        apply not_elem_of_cons in Hnotin' as [Hne Hnotin'].
        rewrite lookup_insert_ne by done.
        apply Hfresh; [|done]. simpl. by right.
    + destruct stack as [|top rest]; [done|].
      destruct Hnested as [-> Hnested].
      pose proof (parent_chain_NoDup _ _ _ Hchain) as Hnd.
      apply NoDup_cons in Hnd as [Hnotin _].
      destruct (Process_dtor_unlinks t top w rest Hchain)
        as (w1 & Hrun & Hobjs & Hcancel & Hrest).
      simpl run_ProcessOp. rewrite (bind_Returned _ _ _ _ _ Hrun).
      simpl not_yet_destroyed. rewrite not_yet_destroyed_top by done.
      apply IH; try done.
      * by rewrite Hcancel.
      * intros this' Hin Hnotin'. rewrite Hobjs.
        destruct (decide (this' = top)) as [->|Hne].
        -- apply lookup_delete_eq.
        -- rewrite lookup_delete_ne by done.
           apply Hfresh; [done|]. by apply not_elem_of_cons.
Qed.

(** C3: for any chain of nested Process constructions and destructions on
    one thread (on which no cancellation is requested), [current()] is the
    most recently constructed Process not yet destroyed, none when there is
    none, and following [m_parent] from it to the root visits exactly the
    Processes constructed and not yet destroyed, most recent first: when
    nothing was destroyed, the construction order reversed (LIFO). *)
Theorem current_is_innermost_live_Process t ops w chain :
  cancellation_requested t w = false →
  parent_chain (processes w) (current t w) chain →
  well_nested ops chain →
  (∀ this, this ∈ constructed ops → this ∉ chain →
           processes w !! this = None) →
  let r := run_ProcessOps t ops w in
  outcome r = Returned tt ∧
  current t (world r) = head (not_yet_destroyed ops chain) ∧
  parent_chain (processes (world r)) (current t (world r))
    (not_yet_destroyed ops chain) ∧
  (Forall is_Construct ops →
   not_yet_destroyed ops chain = reverse (constructed ops) ++ chain).
Proof.
  intros Hc Hchain Hnested Hfresh. cbv zeta.
  destruct (run_ProcessOps_nested t ops w chain Hc Hchain Hnested Hfresh)
    as (w' & Hrun & Hchain').
  rewrite Hrun. unfold outcome, world. simpl.
  split; [done|]. split; [by eapply parent_chain_head|].
  split; [done|]. apply not_yet_destroyed_constructions.
Qed.

Lemma current_is_innermost_live_Process_witness :
  let ops := [Construct 7 "computeNode:compute" (Some 1%positive) None;
              Construct 8 "computeNode:hash" (Some 2%positive) None;
              Destroy 8;
              Construct 9 "computeNode:compute" (Some 3%positive) None] in
  let r := run_ProcessOps 1 ops (sample_world [5]%positive) in
  cancellation_requested 1 (sample_world [5]%positive) = false ∧
  parent_chain (processes (sample_world [5]%positive))
    (current 1 (sample_world [5]%positive)) [] ∧
  well_nested ops [] ∧
  outcome r = Returned tt ∧
  current 1 (world r) = Some 9%positive ∧
  parent_chain (processes (world r)) (current 1 (world r)) [9; 7]%positive.
Proof.
  cbv zeta.
  assert (Hchain : parent_chain (processes (sample_world [5]%positive))
                     (current 1 (sample_world [5]%positive)) [])
    by constructor.
  assert (Hnested : well_nested
    [Construct 7 "computeNode:compute" (Some 1%positive) None;
     Construct 8 "computeNode:hash" (Some 2%positive) None;
     Destroy 8;
     Construct 9 "computeNode:compute" (Some 3%positive) None] []).
  { simpl. repeat split;
      rewrite ?elem_of_cons, ?elem_of_nil; intros H;
      repeat destruct H as [H|H]; try discriminate; done. }
  pose proof (current_is_innermost_live_Process 1 _
                (sample_world [5]%positive) [] eq_refl Hchain Hnested
                ltac:(intros this _ _; apply lookup_empty))
    as (Hout & Hcur & Hfinal & _).
  split; [reflexivity|]. split; [exact Hchain|]. split; [exact Hnested|].
  split; [exact Hout|]. split; [exact Hcur | exact Hfinal].
Defined.

(** * Error reporting *)

Lemma emitError_loop_step fuel t this error pl w :
  emitError_loop (S fuel) t this error (Some pl) w =
  emitError_loop fuel t this error
    (if decide (Some pl ≠ m_plug this) then getInput (graph w pl) else None)
    (log (error_reports (graph w) (g_errorSource w t) error [pl]) w).
Proof.
  simpl. munfold. unfold error_reports, errorSignal. simpl. munfold.
  destruct (decide (direction (graph w pl) = Out)) as [Hd|Hd]; simpl.
  - destruct (node (graph w pl)) as [n|]; simpl; [done|].
    by rewrite log_nil.
  - by rewrite log_nil.
Qed.

Lemma error_reports_cons g source error pl visited :
  error_reports g source error (pl :: visited) =
  error_reports g source error [pl] ++ error_reports g source error visited.
Proof.
  unfold error_reports. simpl.
  by destruct (if decide (direction (g pl) = Out) then _ else _).
Qed.

Lemma emitError_loop_walk g t this error start visited :
  upstream_walk g (m_plug this) start visited →
  ∀ fuel w,
    graph w = g →
    length visited ≤ fuel →
    emitError_loop fuel t this error start w =
      (Returned tt,
       log (error_reports g (g_errorSource w t) error visited) w).
Proof.
  induction 1 as [|pl Htarget|pl visited Hne Hwalk IH];
    intros fuel w Hg Hfuel.
  - destruct fuel; simpl; munfold; by rewrite log_nil.
  - destruct fuel as [|fuel]; [simpl in Hfuel; lia|].
    rewrite emitError_loop_step, decide_False by (by intros []).
    rewrite Hg. by destruct fuel.
  - destruct fuel as [|fuel]; [simpl in Hfuel; lia|].
    rewrite emitError_loop_step, decide_True by done.
    rewrite Hg, IH; [|done|simpl in Hfuel; lia].
    by rewrite log_log, (error_reports_cons _ _ _ pl visited).
Qed.

Lemma upstream_walk_target_last g target start visited :
  upstream_walk g target start visited →
  ∀ i pl, visited !! i = Some pl → Some pl = target → S i = length visited.
Proof.
  induction 1 as [|pl0 Htarget|pl0 visited Hne Hwalk IH]; intros i pl Hi Hpl.
  - done.
  - destruct i; [done|]. simpl in Hi. by rewrite lookup_nil in Hi.
  - destruct i as [|i]; simpl in *.
    + congruence.
    + f_equal. by eapply IH.
Qed.

Lemma emitError_runs fuel t this error w visited :
  upstream_walk (graph w) (m_plug this) (m_downstream this) visited →
  length visited ≤ fuel →
  emitError fuel t this error w =
    (Returned tt,
     log (error_reports (graph w) (g_errorSource w t) error visited) w).
Proof. intros Hwalk Hfuel. unfold emitError. by eapply emitError_loop_walk. Qed.

(** C4: [emitError] walks from the Process's downstream point upstream
    through each point's input connection; at every visited point that is
    an output point belonging to a node, that node's error callback is
    invoked with the point, the thread's recorded error source and the
    message, and nothing else is done; the walk does not go past the target
    point (the target point can only be the last point visited), and when
    the downstream point is the target point exactly that point is
    visited. *)
Theorem emitError_walks_upstream_to_target fuel t this error w visited :
  upstream_walk (graph w) (m_plug this) (m_downstream this) visited →
  length visited ≤ fuel →
  emitError fuel t this error w =
    (Returned tt,
     log (error_reports (graph w) (g_errorSource w t) error visited) w) ∧
  head visited = m_downstream this ∧
  (∀ i pl, visited !! i = Some pl → Some pl = m_plug this →
           S i = length visited) ∧
  (∀ pl, m_downstream this = Some pl → m_plug this = Some pl →
         visited = [pl]).
Proof.
  intros Hwalk Hfuel. split; [|split; [|split]].
  - by apply emitError_runs.
  - by destruct Hwalk.
  - by eapply upstream_walk_target_last.
  - intros pl Hd Hp. rewrite Hd, Hp in Hwalk.
    inversion Hwalk; [done|congruence].
Qed.

Lemma emitError_walks_upstream_to_target_witness :
  upstream_walk (graph (sample_world [])) (m_plug sample_A)
    (m_downstream sample_A) [4; 3; 2; 1]%positive ∧
  length [4; 3; 2; 1]%positive ≤ 4 ∧
  emitError 4 0 sample_A "boom" (sample_world []) =
    (Returned tt,
     log [ErrorSignal 20 2 None "boom"; ErrorSignal 10 1 None "boom"]
       (sample_world [])).
Proof.
  assert (Hwalk : upstream_walk (graph (sample_world [])) (m_plug sample_A)
                    (m_downstream sample_A) [4; 3; 2; 1]%positive).
  { apply upstream_walk_input; [discriminate|].
    apply upstream_walk_input; [discriminate|].
    apply upstream_walk_input; [discriminate|].
    by apply upstream_walk_target. }
  assert (Hfuel : length [4; 3; 2; 1]%positive ≤ 4) by (simpl; lia).
  split; [exact Hwalk|]. split; [exact Hfuel|].
  exact (proj1 (emitError_walks_upstream_to_target 4 0 sample_A "boom"
                  (sample_world []) [4; 3; 2; 1]%positive Hwalk Hfuel)).
Defined.

(** * Exception handling *)

Lemma recordErrorSource_runs t this w :
  recordErrorSource t this w =
    (Returned tt,
     if g_errorSource w t is None then set_errorSource t (m_plug this) w
     else w).
Proof.
  unfold recordErrorSource. munfold. by destruct (g_errorSource w t).
Qed.

Lemma recordErrorSource_source t this w :
  g_errorSource (world (recordErrorSource t this w)) t =
    recorded_source (g_errorSource w t) this ∧
  graph (world (recordErrorSource t this w)) = graph w ∧
  trace (world (recordErrorSource t this w)) = trace w ∧
  ∀ t', t' ≠ t →
    g_errorSource (world (recordErrorSource t this w)) t' =
    g_errorSource w t'.
Proof.
  rewrite recordErrorSource_runs. unfold world, recorded_source. simpl.
  destruct (g_errorSource w t) as [s|] eqn:Hs; simpl.
  - by rewrite Hs.
  - rewrite fn_lookup_insert. repeat split; try done.
    intros t' Hne. by rewrite fn_lookup_insert_ne.
Qed.

Lemma handleException_unfold fuel t this e w :
  e ≠ Cancelled →
  handleException fuel t this e w =
    (recordErrorSource t this;;
     emitError fuel t this (error_message e);;
     throw e) w.
Proof. intros He. by destruct e. Qed.

Lemma handleException_runs fuel t this e w visited :
  e ≠ Cancelled →
  upstream_walk (graph w) (m_plug this) (m_downstream this) visited →
  length visited ≤ fuel →
  handleException fuel t this e w =
    (Thrown e,
     log (error_reports (graph w)
            (recorded_source (g_errorSource w t) this)
            (error_message e) visited)
       (world (recordErrorSource t this w))).
Proof.
  intros He Hwalk Hfuel. rewrite handleException_unfold by done.
  destruct (recordErrorSource_source t this w) as (Hsrc & Hg & _ & _).
  rewrite (bind_Returned _ _ w tt (world (recordErrorSource t this w)))
    by (by rewrite recordErrorSource_runs).
  rewrite <- Hg in Hwalk.
  pose proof (emitError_runs fuel t this
                (error_message e) _ visited Hwalk Hfuel) as Hemit.
  rewrite (bind_Returned _ _ _ tt _ Hemit).
  by rewrite Hsrc, Hg.
Qed.

Lemma handleException_never_returns fuel t this e w a :
  outcome (handleException fuel t this e w) ≠ Returned a.
Proof.
  destruct e as [|what|n]; [done| |];
    unfold handleException; munfold;
    rewrite recordErrorSource_runs;
    by destruct (emitError _ _ _ _ _) as [[[]| |] ?].
Qed.

(** C6: for a non-cancellation exception, [handleException] invokes error
    reporting with the exception's message when it is typed and with
    "Unknown error" when it is untyped, and then rethrows the exception
    unchanged; it never returns normally. *)
Theorem handleException_reports_then_rethrows fuel t this e w visited :
  e ≠ Cancelled →
  upstream_walk (graph w) (m_plug this) (m_downstream this) visited →
  length visited ≤ fuel →
  let r := handleException fuel t this e w in
  let source := recorded_source (g_errorSource w t) this in
  let message := match e with
                 | StdException what => what
                 | _ => "Unknown error"
                 end in
  outcome r = Thrown e ∧
  world r =
    world (emitError fuel t this message
             (world (recordErrorSource t this w))) ∧
  g_errorSource (world r) t = source ∧
  trace (world r) =
    trace w ++ error_reports (graph w) source message visited ∧
  ∀ fuel' a, outcome (handleException fuel' t this e w) ≠ Returned a.
Proof.
  intros He Hwalk Hfuel. cbv zeta.
  fold (error_message e).
  destruct (recordErrorSource_source t this w) as (Hsrc & Hg & Htr & _).
  rewrite (handleException_runs fuel t this e w visited) by done.
  rewrite (emitError_runs fuel t this (error_message e)
             (world (recordErrorSource t this w)) visited)
    by (by rewrite ?Hg).
  set (w1 := world (recordErrorSource t this w)) in *. clearbody w1.
  unfold outcome, world. simpl.
  rewrite Hsrc, Hg, Htr. repeat split; try done.
  intros fuel' a. apply handleException_never_returns.
Qed.

Lemma handleException_reports_then_rethrows_witness :
  Untyped 3 ≠ Cancelled ∧
  upstream_walk (graph (sample_world [])) (m_plug sample_B)
    (m_downstream sample_B) [3; 2]%positive ∧
  length [3; 2]%positive ≤ 5 ∧
  let r := handleException 5 0 sample_B (Untyped 3) (sample_world []) in
  outcome r = Thrown (Untyped 3) ∧
  g_errorSource (world r) 0 = Some 2%positive ∧
  trace (world r) = [ErrorSignal 20 2 (Some 2%positive) "Unknown error"].
Proof.
  assert (He : Untyped 3 ≠ Cancelled) by discriminate.
  assert (Hwalk : upstream_walk (graph (sample_world [])) (m_plug sample_B)
                    (m_downstream sample_B) [3; 2]%positive).
  { apply upstream_walk_input; [discriminate|].
    by apply upstream_walk_target. }
  assert (Hfuel : length [3; 2]%positive ≤ 5) by (simpl; lia).
  pose proof (handleException_reports_then_rethrows 5 0 sample_B (Untyped 3)
                (sample_world []) [3; 2]%positive He Hwalk Hfuel)
    as (Hout & _ & Hsrc & Htr & _).
  split; [exact He|]. split; [exact Hwalk|]. split; [exact Hfuel|].
  cbv zeta. split; [exact Hout|]. split; [exact Hsrc|]. exact Htr.
Defined.

(** * The error source of an unwind *)

Lemma error_reports_Forall g source error visited :
  Forall (λ ev, ∃ n pl, ev = ErrorSignal n pl source error)
    (error_reports g source error visited).
Proof.
  unfold error_reports. induction visited as [|pl visited IH]; simpl.
  - constructor.
  - destruct (decide (direction (g pl) = Out)); [|done].
    destruct (node (g pl)) as [n|]; simpl; [|done].
    constructor; [by exists n, pl|done].
Qed.

Lemma unwind_recorded fuel t levels e s :
  e ≠ Cancelled →
  ∀ w,
    g_errorSource w t = Some s →
    Forall (walk_within fuel (graph w)) levels →
    ∃ evs,
      unwind fuel t levels e w = (Thrown e, log evs w) ∧
      Forall (λ ev, ∃ n pl, ev = ErrorSignal n pl (Some s) (error_message e))
        evs.
Proof.
  intros He. induction levels as [|this outer IH]; intros w Hs Hwalks.
  - exists []. by rewrite log_nil.
  - apply Forall_cons in Hwalks as [(visited & Hwalk & Hfuel) Hwalks].
    simpl. unfold try_catch.
    rewrite (handleException_runs fuel t this e w visited) by done.
    rewrite recordErrorSource_runs, Hs. unfold world. simpl.
    destruct (IH (log (error_reports (graph w) (Some s) (error_message e)
                         visited) w)) as (evs & Hrun & Hevs); [done..|].
    rewrite Hrun. eexists. split; [by rewrite log_log|].
    apply Forall_app. split; [apply error_reports_Forall|done].
Qed.



(** The scenario of [sample_unwound], run: the three Processes are the
    sample ones; C's walk meets an input point only and calls no node, the
    levels of B and A report with C's target point as the source; the
    source on record is C's target point until the root is destroyed, and
    none after. *)
Example sample_unwind_runs :
  processes sample_nested !! 9%positive = Some sample_C ∧
  processes sample_nested !! 8%positive = Some sample_B ∧
  processes sample_nested !! 7%positive = Some sample_A ∧
  g_errorSource sample_unwound 0 = Some 3%positive ∧
  drop 3 (trace sample_unwound) =
    [ProcessFinished 5 9;
     ErrorSignal 20 2 (Some 3%positive) "bad";
     ProcessFinished 5 8;
     ErrorSignal 20 2 (Some 3%positive) "bad";
     ErrorSignal 10 1 (Some 3%positive) "bad"] ∧
  g_errorSource (world (Process_dtor 0 7 sample_unwound)) 0 = None.
Proof. vm_compute. repeat split. Qed.

(** * More about the monitor registry *)

Lemma FlatSet_insert_insert k s :
  FlatSet.insert k (FlatSet.insert k s) = FlatSet.insert k s.
Proof.
  induction s as [|x s IH]; simpl.
  - by rewrite Pos.ltb_irrefl, Pos.eqb_refl.
  - destruct (Pos.ltb_spec k x) as [Hlt|Hge]; simpl.
    + by rewrite Pos.ltb_irrefl, Pos.eqb_refl.
    + destruct (Pos.eqb_spec k x) as [->|Hne]; simpl.
      * by rewrite Pos.ltb_irrefl, Pos.eqb_refl.
      * destruct (Pos.ltb_spec k x); [lia|].
        destruct (Pos.eqb_spec k x); [done|]. by rewrite IH.
Qed.

Lemma FlatSet_erase_insert k s :
  k ∉ s → FlatSet.erase k (FlatSet.insert k s) = s.
Proof.
  unfold FlatSet.erase. induction s as [|x s IH]; intros Hk; simpl.
  - rewrite filter_cons. case_decide; [done|]. done.
  - apply not_elem_of_cons in Hk as [Hne Hk].
    assert (Hs : filter (λ y, y ≠ k) s = s).
    { clear -Hk. induction s as [|y s IH]; [done|].
      apply not_elem_of_cons in Hk as [Hne Hk].
      rewrite filter_cons_True by done. by rewrite IH. }
    destruct (Pos.ltb_spec k x) as [Hlt|Hge].
    + rewrite filter_cons_False by (intros H; by apply H).
      rewrite filter_cons_True by done. by rewrite Hs.
    + destruct (Pos.eqb_spec k x) as [->|_]; [done|].
      rewrite filter_cons_True by done. by rewrite IH.
Qed.

Lemma monitorRegistered_ext monitor w w' :
  (monitor ∈ g_activeMonitors w ↔ monitor ∈ g_activeMonitors w') →
  monitorRegistered monitor w = monitorRegistered monitor w'.
Proof.
  intros H.
  destruct (monitorRegistered monitor w) eqn:H1;
    destruct (monitorRegistered monitor w') eqn:H2; try done.
  - apply monitorRegistered_true in H1. apply monitorRegistered_false in H2.
    tauto.
  - apply monitorRegistered_false in H1. apply monitorRegistered_true in H2.
    tauto.
Qed.

(** X1: [registerMonitor] makes the monitor registered, whatever the
    registry held; registering it again leaves the registry exactly as it
    is, yet cancels all background tasks once more. *)
Theorem registerMonitor_idempotent monitor w :
  let w1 := world (registerMonitor monitor w) in
  let w2 := world (registerMonitor monitor w1) in
  monitorRegistered monitor w1 = true ∧
  g_activeMonitors w2 = g_activeMonitors w1 ∧
  trace w2 = trace w1 ++ [CancelAllTasks].
Proof.
  cbv zeta. rewrite !registerMonitor_runs. unfold world. simpl.
  split; [|split; [|done]].
  - apply monitorRegistered_true. simpl.
    apply FlatSetFacts.elem_of_insert. by left.
  - apply FlatSet_insert_insert.
Qed.

(** X2: registering or deregistering one monitor does not change whether
    any other monitor is registered. *)
Theorem monitor_ops_keep_other_monitors monitor other w :
  other ≠ monitor →
  monitorRegistered other (world (registerMonitor monitor w)) =
    monitorRegistered other w ∧
  monitorRegistered other (world (deregisterMonitor monitor w)) =
    monitorRegistered other w.
Proof.
  intros Hne. rewrite registerMonitor_runs, deregisterMonitor_runs.
  unfold world. simpl. split; apply monitorRegistered_ext; simpl.
  - rewrite FlatSetFacts.elem_of_insert. tauto.
  - rewrite FlatSetFacts.elem_of_erase. tauto.
Qed.

Lemma monitor_ops_keep_other_monitors_witness :
  (6 ≠ 5)%positive ∧
  monitorRegistered 6 (world (registerMonitor 5 (sample_world [6]%positive)))
    = true ∧
  monitorRegistered 6
    (world (deregisterMonitor 5 (sample_world [5; 6]%positive))) = true.
Proof.
  assert (Hne : (6 ≠ 5)%positive) by discriminate.
  split; [exact Hne|]. split.
  - rewrite (proj1 (monitor_ops_keep_other_monitors 5 6
                      (sample_world [6]%positive) Hne)).
    reflexivity.
  - rewrite (proj2 (monitor_ops_keep_other_monitors 5 6
                      (sample_world [5; 6]%positive) Hne)).
    reflexivity.
Defined.

(** X3: registering a monitor that is not registered and deregistering it
    again gives back the registry as it was, element for element. *)
Theorem register_deregister_restores monitor w :
  monitorRegistered monitor w = false →
  g_activeMonitors
    (world (deregisterMonitor monitor (world (registerMonitor monitor w)))) =
  g_activeMonitors w.
Proof.
  intros Hreg. apply monitorRegistered_false in Hreg.
  rewrite registerMonitor_runs, deregisterMonitor_runs. unfold world. simpl.
  by apply FlatSet_erase_insert.
Qed.

Lemma register_deregister_restores_witness :
  monitorRegistered 4 (sample_world [2; 6]%positive) = false ∧
  g_activeMonitors
    (world (deregisterMonitor 4
              (world (registerMonitor 4 (sample_world [2; 6]%positive))))) =
  [2; 6]%positive.
Proof.
  split; [reflexivity|].
  apply (register_deregister_restores 4 (sample_world [2; 6]%positive)).
  reflexivity.
Defined.

(** * Notifications over a run of constructions and destructions *)

Lemma run_ProcessOp_notifies t op w :
  cancellation_requested t w = false →
  ∃ w', run_ProcessOp t op w = (Returned tt, w') ∧
        cancellation_requested t w' = false ∧
        g_activeMonitors w' = g_activeMonitors w ∧
        trace w' = trace w ++ notifications (g_activeMonitors w) op.
Proof.
  intros Hc. destruct op as [this type plug downstream|this]; simpl.
  - rewrite Process_ctor_runs by done. eexists. split; [done|].
    unfold cancellation_requested in *. simpl.
    rewrite fn_lookup_insert. by simpl.
  - rewrite Process_dtor_runs. eexists. split; [done|].
    unfold cancellation_requested in *. simpl.
    rewrite fn_lookup_insert. simpl.
    by destruct (parent this w).
Qed.

Lemma run_ProcessOps_notifies t ops w :
  cancellation_requested t w = false →
  ∃ w', run_ProcessOps t ops w = (Returned tt, w') ∧
        g_activeMonitors w' = g_activeMonitors w ∧
        trace w' =
          trace w ++ concat (notifications (g_activeMonitors w) <$> ops).
Proof.
  revert w. induction ops as [|op ops IH]; intros w Hc.
  - exists w. simpl. by rewrite app_nil_r.
  - destruct (run_ProcessOp_notifies t op w Hc) as (w1 & Hrun1 & Hc1 & Hm1 & Ht1).
    destruct (IH w1 Hc1) as (w' & Hrun & Hm & Ht).
    exists w'. split; [|split].
    + change (run_ProcessOps t (op :: ops) w)
        with ((run_ProcessOp t op ≫= λ _, run_ProcessOps t ops) w).
      by rewrite (bind_Returned _ _ _ _ _ Hrun1).
    + congruence.
    + rewrite Ht, Ht1, Hm1. simpl. by rewrite app_assoc.
Qed.

Lemma count_started_app monitor tr1 tr2 :
  count_started monitor (tr1 ++ tr2) =
  count_started monitor tr1 + count_started monitor tr2.
Proof. unfold count_started. by rewrite filter_app, length_app. Qed.

Lemma count_finished_app monitor tr1 tr2 :
  count_finished monitor (tr1 ++ tr2) =
  count_finished monitor tr1 + count_finished monitor tr2.
Proof. unfold count_finished. by rewrite filter_app, length_app. Qed.

Lemma count_in_NoDup (monitor : positive) (ms : list positive) :
  NoDup ms → monitor ∈ ms →
  length (filter (λ m, m = monitor) ms) = 1.
Proof.
  induction 1 as [|m ms Hnotin Hnd IH]; intros Hin.
  - by apply elem_of_nil in Hin.
  - rewrite filter_cons. case_decide as Heq.
    + subst m. simpl. f_equal.
      assert (Hnone : filter (λ m, m = monitor) ms = []); [|by rewrite Hnone].
      clear -Hnotin. induction ms as [|y ms IH]; [done|].
      apply not_elem_of_cons in Hnotin as [Hne Hnotin].
      rewrite filter_cons_False by congruence. by apply IH.
    + apply elem_of_cons in Hin as [->|Hin]; [done|]. by apply IH.
Qed.

Lemma count_matching {A} (f : A → Event) (test : Event → bool)
    (monitor : positive) (pick : A → positive) (ms : list A) :
  (∀ x, test (f x) = bool_decide (pick x = monitor)) →
  length (filter (λ ev, test ev) (f <$> ms)) =
  length (filter (λ x, pick x = monitor) ms).
Proof.
  intros Htest. induction ms as [|x ms IH]; [done|].
  rewrite fmap_cons, !filter_cons.
  destruct (decide (pick x = monitor)) as [Heq|Hne].
  - rewrite decide_True; [simpl; by rewrite IH|].
    rewrite Htest. by apply bool_decide_pack.
  - rewrite decide_False; [done|].
    rewrite Htest. by intros H%bool_decide_unpack.
Qed.

Lemma count_none {A} (f : A → Event) (test : Event → bool) (ms : list A) :
  (∀ x, test (f x) = false) →
  length (filter (λ ev, test ev) (f <$> ms)) = 0.
Proof.
  intros Htest. induction ms as [|x ms IH]; [done|].
  rewrite fmap_cons, filter_cons.
  rewrite decide_False; [done|]. rewrite Htest. by intros [].
Qed.

Lemma count_notifications monitor ms op :
  NoDup ms → monitor ∈ ms →
  count_started monitor (notifications ms op) =
    (if op is Construct _ _ _ _ then 1 else 0) ∧
  count_finished monitor (notifications ms op) =
    (if op is Destroy _ then 1 else 0).
Proof.
  intros Hnd Hin. pose proof (count_in_NoDup monitor ms Hnd Hin) as Hone.
  unfold count_started, count_finished.
  destruct op as [this type plug downstream|this]; simpl; split.
  - by rewrite (count_matching _ _ monitor id).
  - by apply count_none.
  - by apply count_none.
  - by rewrite (count_matching _ _ monitor id).
Qed.

(** X4: over any run of constructions and destructions on a thread on which
    no cancellation is requested, the calls made are, for each construction
    or destruction in turn, one [processStarted] or [processFinished] per
    registered monitor and nothing else; so every registered monitor has
    received as many [processStarted] calls as Processes were constructed
    and as many [processFinished] calls as were destroyed. *)
Theorem run_ProcessOps_notifications t ops w monitor :
  cancellation_requested t w = false →
  FlatSet.wf (g_activeMonitors w) →
  monitorRegistered monitor w = true →
  let w' := world (run_ProcessOps t ops w) in
  trace w' = trace w ++ concat (notifications (g_activeMonitors w) <$> ops) ∧
  count_started monitor (trace w') =
    count_started monitor (trace w) + length (constructed ops) ∧
  count_finished monitor (trace w') =
    count_finished monitor (trace w) + length (destroyed ops).
Proof.
  intros Hc Hwf Hreg. cbv zeta.
  destruct (run_ProcessOps_notifies t ops w Hc) as (w' & Hrun & _ & Htr).
  rewrite Hrun. unfold world. simpl. rewrite Htr.
  split; [done|].
  rewrite count_started_app, count_finished_app.
  apply FlatSetFacts.wf_NoDup in Hwf.
  apply monitorRegistered_true in Hreg.
  clear Hrun Htr. induction ops as [|op ops [IH1 IH2]]; [done|].
  rewrite fmap_cons. simpl concat.
  rewrite count_started_app, count_finished_app.
  destruct (count_notifications monitor (g_activeMonitors w) op Hwf Hreg)
    as [-> ->].
  destruct op; simpl; lia.
Qed.

Lemma run_ProcessOps_notifications_witness :
  let ops := [Construct 7 "computeNode:compute" (Some 1%positive) None;
              Construct 8 "computeNode:hash" (Some 2%positive) None;
              Destroy 8; Destroy 7] in
  let w' := world (run_ProcessOps 1 ops (sample_world [5; 6]%positive)) in
  cancellation_requested 1 (sample_world [5; 6]%positive) = false ∧
  FlatSet.wf (g_activeMonitors (sample_world [5; 6]%positive)) ∧
  monitorRegistered 6 (sample_world [5; 6]%positive) = true ∧
  trace w' =
    [ProcessStarted 5 7; ProcessStarted 6 7;
     ProcessStarted 5 8; ProcessStarted 6 8;
     ProcessFinished 5 8; ProcessFinished 6 8;
     ProcessFinished 5 7; ProcessFinished 6 7] ∧
  count_started 6 (trace w') = 2 ∧
  count_finished 6 (trace w') = 2.
Proof.
  cbv zeta.
  assert (Hwf : FlatSet.wf (g_activeMonitors (sample_world [5; 6]%positive))).
  { apply (FlatSetFacts.wf_insert 5 [6]%positive).
    apply (FlatSetFacts.wf_insert 6 []). apply FlatSetFacts.wf_nil. }
  pose proof (run_ProcessOps_notifications 1
    [Construct 7 "computeNode:compute" (Some 1%positive) None;
     Construct 8 "computeNode:hash" (Some 2%positive) None;
     Destroy 8; Destroy 7]
    (sample_world [5; 6]%positive) 6%positive eq_refl Hwf eq_refl)
    as (Htr & Hs & Hf).
  split; [reflexivity|]. split; [exact Hwf|]. split; [reflexivity|].
  split; [exact Htr|]. split; [exact Hs | exact Hf].
Defined.

(** * More about error reporting *)

(** X5: a Process constructed without a downstream plug reports at its own
    plug: the object has [plug] as its downstream plug and the thread's
    previous Process as its parent, and [emitError] on it returns after at
    most one call, to the node of [plug] when [plug] is an output plug that
    has one. *)
Theorem Process_ctor_default_downstream
    fuel t this type plug error w :
  cancellation_requested t w = false →
  1 ≤ fuel →
  let w' := world (Process_ctor t this type (Some plug) None w) in
  ∃ p, processes w' !! this = Some p ∧
       m_plug p = Some plug ∧
       m_downstream p = Some plug ∧
       m_parent p = current t w ∧
       emitError fuel t p error w' =
         (Returned tt,
          log (if decide (direction (graph w plug) = Out)
               then match node (graph w plug) with
                    | Some n => [ErrorSignal n plug (g_errorSource w t) error]
                    | None => []
                    end
               else []) w').
Proof.
  intros Hc Hfuel. cbv zeta. rewrite Process_ctor_runs by done.
  unfold world. simpl. eexists. split; [apply lookup_insert_eq|].
  simpl. repeat split.
  rewrite (emitError_runs fuel t _ error _ [plug]).
  - simpl. unfold error_reports. simpl.
    destruct (decide (direction (graph w plug) = Out)); [|done].
    by destruct (node (graph w plug)).
  - simpl. by apply upstream_walk_target.
  - done.
Qed.

Lemma Process_ctor_default_downstream_witness :
  cancellation_requested 0 (sample_world [5]%positive) = false ∧
  1 ≤ 1 ∧
  ∃ p,
    processes
      (world (Process_ctor 0 7 "computeNode:compute" (Some 2%positive) None
                (sample_world [5]%positive))) !! 7%positive = Some p ∧
    m_downstream p = Some 2%positive ∧
    trace (world (emitError 1 0 p "boom"
             (world (Process_ctor 0 7 "computeNode:compute" (Some 2%positive)
                       None (sample_world [5]%positive))))) =
      [ProcessStarted 5 7; ErrorSignal 20 2 None "boom"].
Proof.
  assert (Hfuel : 1 ≤ 1) by lia.
  split; [reflexivity|]. split; [exact Hfuel|].
  destruct (Process_ctor_default_downstream 1 0 7 "computeNode:compute"
              2%positive "boom" (sample_world [5]%positive) eq_refl Hfuel)
    as (p & Hp & _ & Hd & _ & Hemit).
  exists p. split; [exact Hp|]. split; [exact Hd|].
  rewrite Hemit. reflexivity.
Defined.

Lemma error_reports_shape g source error visited :
  Forall (λ ev, ∃ n pl, ev = ErrorSignal n pl source error ∧
                        direction (g pl) = Out ∧ node (g pl) = Some n)
    (error_reports g source error visited).
Proof.
  unfold error_reports. induction visited as [|pl visited IH]; simpl.
  - constructor.
  - destruct (decide (direction (g pl) = Out)) as [Hd|]; [|done].
    destruct (node (g pl)) as [n|] eqn:Hn; simpl; [|done].
    constructor; [by exists n, pl|done].
Qed.

Lemma emitError_loop_logs fuel t this error :
  ∀ start w,
    ∃ evs,
      (outcome (emitError_loop fuel t this error start w) = Returned tt ∨
       outcome (emitError_loop fuel t this error start w) = OutOfFuel) ∧
      world (emitError_loop fuel t this error start w) = log evs w ∧
      Forall (λ ev, ∃ n pl, ev = ErrorSignal n pl (g_errorSource w t) error ∧
                            direction (graph w pl) = Out ∧
                            node (graph w pl) = Some n) evs.
Proof.
  induction fuel as [|fuel IH]; intros start w.
  - exists []. rewrite log_nil. destruct start; simpl; eauto.
  - destruct start as [pl|].
    + rewrite emitError_loop_step.
      destruct (IH (if decide (Some pl ≠ m_plug this)
                    then getInput (graph w pl) else None)
                  (log (error_reports (graph w) (g_errorSource w t) error [pl])
                     w)) as (evs & Hout & Hw & Hevs).
      eexists. split; [exact Hout|]. split; [by rewrite Hw, log_log|].
      apply Forall_app. split; [apply error_reports_shape|exact Hevs].
    + exists []. rewrite log_nil. simpl. eauto.
Qed.

(** X6: whatever the graph and however long the walk, every call
    [emitError] makes is an error signal of a node, for one of its output
    plugs, carrying the thread's recorded error source and the given
    message; [emitError] changes no state of its own and throws nothing. *)
Theorem emitError_only_signals fuel t this error w :
  let r := emitError fuel t this error w in
  (outcome r = Returned tt ∨ outcome r = OutOfFuel) ∧
  g_activeMonitors (world r) = g_activeMonitors w ∧
  g_errorSource (world r) = g_errorSource w ∧
  threadState (world r) = threadState w ∧
  processes (world r) = processes w ∧
  ∃ evs,
    trace (world r) = trace w ++ evs ∧
    Forall (λ ev, ∃ n pl, ev = ErrorSignal n pl (g_errorSource w t) error ∧
                          direction (graph w pl) = Out ∧
                          node (graph w pl) = Some n) evs.
Proof.
  cbv zeta. unfold emitError.
  destruct (emitError_loop_logs fuel t this error (m_downstream this) w)
    as (evs & Hout & Hw & Hevs).
  rewrite Hw. split; [exact Hout|]. repeat split; try done.
  by exists evs.
Qed.

Lemma emitError_loop_cycle t this error (on_cycle : positive → Prop) g :
  (∀ pl, on_cycle pl →
         Some pl ≠ m_plug this ∧
         ∃ pl', getInput (g pl) = Some pl' ∧ on_cycle pl') →
  ∀ fuel pl w,
    graph w = g → on_cycle pl →
    outcome (emitError_loop fuel t this error (Some pl) w) = OutOfFuel.
Proof.
  intros Hcycle. induction fuel as [|fuel IH]; intros pl w Hg Hpl; [done|].
  rewrite emitError_loop_step.
  destruct (Hcycle pl Hpl) as (Hne & pl' & Hin & Hpl').
  rewrite decide_True by done. rewrite Hg, Hin. by apply IH.
Qed.

(** X7: [emitError] stops only at the target plug or at a plug without
    input: when the input connections upstream of the downstream plug run
    in a cycle that does not contain the target plug, no amount of fuel
    lets it return. *)
Theorem emitError_cycle_never_returns
    fuel t this error w (on_cycle : positive → Prop) start :
  m_downstream this = Some start →
  on_cycle start →
  (∀ pl, on_cycle pl →
         Some pl ≠ m_plug this ∧
         ∃ pl', getInput (graph w pl) = Some pl' ∧ on_cycle pl') →
  outcome (emitError fuel t this error w) = OutOfFuel.
Proof.
  intros Hd Hstart Hcycle. unfold emitError. rewrite Hd.
  by eapply emitError_loop_cycle.
Qed.

Lemma emitError_cycle_never_returns_witness :
  m_downstream sample_off_path = Some 1%positive ∧
  outcome (emitError 1000 0 sample_off_path "boom" cyclic_world) = OutOfFuel.
Proof.
  split; [reflexivity|].
  apply (emitError_cycle_never_returns 1000 0 sample_off_path "boom"
           cyclic_world (λ pl, pl = 1%positive ∨ pl = 2%positive) 1%positive).
  - reflexivity.
  - by left.
  - intros pl [->| ->].
    + split; [discriminate|]. exists 2%positive. split; [reflexivity|by right].
    + split; [discriminate|]. exists 1%positive. split; [reflexivity|by left].
Defined.

(** * More about exception handling *)

(** X8: an unwind of a cancellation through any number of levels reports
    nothing and records nothing: every level rethrows, and the world is
    left as it was. *)
Theorem unwind_Cancelled fuel t levels w :
  unwind fuel t levels Cancelled w = (Thrown Cancelled, w).
Proof. induction levels as [|this outer IH]; [done|]. simpl. exact IH. Qed.

(** X9: after the unwind of an error through any levels, the source on
    record is the one that was on record before or, when there was none,
    the target plug of the innermost level that has a target plug (none
    when no level has one): a level with a null target plug records
    nothing and leaves the recording to the next level out. *)
Theorem unwind_records_first_target fuel t levels e w :
  e ≠ Cancelled →
  Forall (walk_within fuel (graph w)) levels →
  let r := unwind fuel t levels e w in
  outcome r = Thrown e ∧
  g_errorSource (world r) t =
    match g_errorSource w t with
    | Some s => Some s
    | None => first_target levels
    end.
Proof.
  intros He. revert w. induction levels as [|this outer IH]; intros w Hwalks.
  - cbv zeta. simpl. unfold outcome, world. simpl.
    by destruct (g_errorSource w t).
  - cbv zeta. destruct (g_errorSource w t) as [s|] eqn:Hs.
    + destruct (unwind_recorded fuel t (this :: outer) e s He w Hs Hwalks)
        as (evs & Hrun & _).
      rewrite Hrun. unfold outcome, world. simpl. by rewrite Hs.
    + pose proof Hwalks as Hwalks'.
      apply Forall_cons in Hwalks' as [(visited & Hwalk & Hfuel) Houter].
      simpl. unfold try_catch.
      rewrite (handleException_runs fuel t this e w visited) by done.
      destruct (recordErrorSource_source t this w) as (Hsrc & Hg & _ & _).
      rewrite Hs in *. simpl in Hsrc.
      set (w1 := log _ _).
      assert (Hg1 : graph w1 = graph w) by (subst w1; simpl; by rewrite Hg).
      assert (Hs1 : g_errorSource w1 t = m_plug this)
        by (subst w1; simpl; by rewrite Hsrc).
      rewrite <- Hg1 in Houter.
      destruct (IH w1 Houter) as [Hout Hfin]. cbv zeta in Hfin.
      split; [exact Hout|]. rewrite Hfin, Hs1.
      by destruct (m_plug this).
Qed.

Lemma unwind_records_first_target_witness :
  StdException "bad" ≠ Cancelled ∧
  Forall (walk_within 4 (graph (sample_world [])))
    [sample_no_plug; sample_B; sample_A] ∧
  g_errorSource
    (world (unwind 4 0 [sample_no_plug; sample_B; sample_A]
              (StdException "bad") (sample_world []))) 0 = Some 2%positive.
Proof.
  assert (He : StdException "bad" ≠ Cancelled) by discriminate.
  assert (Hwalks : Forall (walk_within 4 (graph (sample_world [])))
                     [sample_no_plug; sample_B; sample_A]).
  { repeat apply Forall_cons_2; [| | |apply Forall_nil_2].
    - exists []. split; [|simpl; lia]. apply upstream_walk_none.
    - exists [3; 2]%positive. split; [|simpl; lia].
      apply upstream_walk_input; [discriminate|].
      by apply upstream_walk_target.
    - exists [4; 3; 2; 1]%positive. split; [|simpl; lia].
      do 3 (apply upstream_walk_input; [discriminate|]).
      by apply upstream_walk_target. }
  split; [exact He|]. split; [exact Hwalks|].
  exact (proj2 (unwind_records_first_target 4 0
                  [sample_no_plug; sample_B; sample_A] (StdException "bad")
                  (sample_world []) He Hwalks)).
Defined.

(** X10: the recorded error source outlives the destruction of a Process
    that has a parent: an error handled after it on the same thread, by any
    Process, is recorded and reported with the source of the earlier
    error. *)
Theorem errorSource_stale_after_child_destruction
    fuel t this p s later e w visited :
  processes w !! this = Some p →
  m_parent p ≠ None →
  g_errorSource w t = Some s →
  e ≠ Cancelled →
  upstream_walk (graph w) (m_plug later) (m_downstream later) visited →
  length visited ≤ fuel →
  let w1 := world (Process_dtor t this w) in
  let r := handleException fuel t later e w1 in
  outcome r = Thrown e ∧
  g_errorSource (world r) t = Some s ∧
  trace (world r) =
    trace w1 ++ error_reports (graph w) (Some s) (error_message e) visited.
Proof.
  intros Hp Hpar Hs He Hwalk Hfuel. cbv zeta.
  rewrite Process_dtor_runs. unfold world at 2 4 5. simpl.
  unfold parent. rewrite Hp. simpl.
  destruct (m_parent p) as [par|]; [|done]. simpl.
  set (w1 := set_processes _ _).
  assert (Hg1 : graph w1 = graph w) by done.
  assert (Hs1 : g_errorSource w1 t = Some s) by done.
  rewrite (handleException_runs fuel t later e w1 visited)
    by (by rewrite ?Hg1).
  rewrite recordErrorSource_runs, Hs1. unfold outcome, world. simpl.
  by rewrite Hs.
Qed.

Lemma errorSource_stale_after_child_destruction_witness :
  processes sample_failed_child !! 8%positive = Some sample_B ∧
  m_parent sample_B ≠ None ∧
  g_errorSource sample_failed_child 0 = Some 2%positive ∧
  Untyped 1 ≠ Cancelled ∧
  upstream_walk (graph sample_failed_child) (m_plug sample_A)
    (m_downstream sample_A) [4; 3; 2; 1]%positive ∧
  length [4; 3; 2; 1]%positive ≤ 4 ∧
  g_errorSource
    (world (handleException 4 0 sample_A (Untyped 1)
              (world (Process_dtor 0 8 sample_failed_child)))) 0 =
    Some 2%positive.
Proof.
  assert (Hp : processes sample_failed_child !! 8%positive = Some sample_B)
    by reflexivity.
  assert (Hpar : m_parent sample_B ≠ None) by discriminate.
  assert (Hs : g_errorSource sample_failed_child 0 = Some 2%positive)
    by (vm_compute; reflexivity).
  assert (He : Untyped 1 ≠ Cancelled) by discriminate.
  assert (Hwalk : upstream_walk (graph sample_failed_child) (m_plug sample_A)
                    (m_downstream sample_A) [4; 3; 2; 1]%positive).
  { do 3 (apply upstream_walk_input; [discriminate|]).
    by apply upstream_walk_target. }
  assert (Hfuel : length [4; 3; 2; 1]%positive ≤ 4) by (simpl; lia).
  repeat (split; [assumption|]).
  exact (proj1 (proj2 (errorSource_stale_after_child_destruction 4 0
    8%positive sample_B 2%positive sample_A (Untyped 1) sample_failed_child
    [4; 3; 2; 1]%positive Hp Hpar Hs He Hwalk Hfuel))).
Defined.

(** X11: after the destruction of a Process that has no parent, an error
    handled on the same thread is recorded and reported with the target
    plug of the Process that handles it, whatever source was on record
    before the destruction. *)
Theorem errorSource_fresh_after_root_destruction
    fuel t this p later e w visited :
  processes w !! this = Some p →
  m_parent p = None →
  e ≠ Cancelled →
  upstream_walk (graph w) (m_plug later) (m_downstream later) visited →
  length visited ≤ fuel →
  let w1 := world (Process_dtor t this w) in
  let r := handleException fuel t later e w1 in
  outcome r = Thrown e ∧
  g_errorSource (world r) t = m_plug later ∧
  trace (world r) =
    trace w1 ++
    error_reports (graph w) (m_plug later) (error_message e) visited.
Proof.
  intros Hp Hpar He Hwalk Hfuel. cbv zeta.
  rewrite Process_dtor_runs. unfold world at 2 4 5. simpl.
  unfold parent. rewrite Hp. simpl. rewrite Hpar. simpl.
  set (w1 := set_processes _ _).
  assert (Hg1 : graph w1 = graph w) by done.
  assert (Hs1 : g_errorSource w1 t = None)
    by (subst w1; simpl; apply fn_lookup_insert).
  rewrite (handleException_runs fuel t later e w1 visited)
    by (by rewrite ?Hg1).
  rewrite recordErrorSource_runs, Hs1. unfold outcome, world. simpl.
  by rewrite fn_lookup_insert.
Qed.

Lemma errorSource_fresh_after_root_destruction_witness :
  processes sample_failed_root !! 7%positive = Some sample_A ∧
  m_parent sample_A = None ∧
  g_errorSource sample_failed_root 0 = Some 1%positive ∧
  Untyped 1 ≠ Cancelled ∧
  upstream_walk (graph sample_failed_root) (m_plug sample_B)
    (m_downstream sample_B) [3; 2]%positive ∧
  length [3; 2]%positive ≤ 4 ∧
  g_errorSource
    (world (handleException 4 0 sample_B (Untyped 1)
              (world (Process_dtor 0 7 sample_failed_root)))) 0 =
    Some 2%positive.
Proof.
  assert (Hp : processes sample_failed_root !! 7%positive = Some sample_A)
    by reflexivity.
  assert (Hpar : m_parent sample_A = None) by reflexivity.
  assert (Hs : g_errorSource sample_failed_root 0 = Some 1%positive)
    by (vm_compute; reflexivity).
  assert (He : Untyped 1 ≠ Cancelled) by discriminate.
  assert (Hwalk : upstream_walk (graph sample_failed_root) (m_plug sample_B)
                    (m_downstream sample_B) [3; 2]%positive).
  { apply upstream_walk_input; [discriminate|].
    by apply upstream_walk_target. }
  assert (Hfuel : length [3; 2]%positive ≤ 4) by (simpl; lia).
  repeat (split; [assumption|]).
  exact (proj1 (proj2 (errorSource_fresh_after_root_destruction 4 0
    7%positive sample_A sample_B (Untyped 1) sample_failed_root
    [3; 2]%positive Hp Hpar He Hwalk Hfuel))).
Defined.

(** * Calls from any thread, in any order *)

Lemma handleException_world fuel t this e w :
  e ≠ Cancelled →
  world (handleException fuel t this e w) =
  world (emitError fuel t this (error_message e)
           (world (recordErrorSource t this w))).
Proof.
  intros He. rewrite handleException_unfold by done.
  rewrite (bind_Returned _ _ w tt (world (recordErrorSource t this w)))
    by (by rewrite recordErrorSource_runs).
  unfold mbind, M_bind.
  by destruct (emitError _ _ _ _ _) as [[[]| |] ?].
Qed.

Lemma run_Call_frame fuel c w :
  let w' := world (run_Call fuel c w) in
  graph w' = graph w ∧
  (¬ changes_registry c → g_activeMonitors w' = g_activeMonitors w) ∧
  (FlatSet.wf (g_activeMonitors w) → FlatSet.wf (g_activeMonitors w')).
Proof.
  cbv zeta.
  destruct c as [t0 this type plug downstream|t0 this|t0 this e|t0 this error
                |m|m]; cbn [run_Call changes_registry].
  - destruct (cancellation_requested t0 w) eqn:Hc.
    + by rewrite Process_ctor_cancelled.
    + by rewrite Process_ctor_runs by done.
  - rewrite Process_dtor_runs. unfold world. simpl.
    by destruct (parent this w).
  - destruct (decide (e = Cancelled)) as [->|He]; [done|].
    rewrite handleException_world by done. unfold emitError.
    destruct (emitError_loop_logs fuel t0 this (error_message e)
                (m_downstream this) (world (recordErrorSource t0 this w)))
      as (evs & _ & -> & _).
    destruct (recordErrorSource_source t0 this w) as (_ & Hg & _ & _).
    simpl. rewrite Hg. rewrite recordErrorSource_runs.
    unfold world. simpl. by destruct (g_errorSource w t0).
  - unfold emitError.
    destruct (emitError_loop_logs fuel t0 this error (m_downstream this) w)
      as (evs & _ & -> & _).
    by simpl.
  - rewrite registerMonitor_runs. unfold world. simpl.
    repeat split; try done. apply FlatSetFacts.wf_insert.
  - rewrite deregisterMonitor_runs. unfold world. simpl.
    repeat split; try done. apply FlatSetFacts.wf_erase.
Qed.

Lemma run_Call_other_thread fuel c w t :
  on_other_thread t c →
  let w' := world (run_Call fuel c w) in
  threadState w' t = threadState w t ∧
  g_errorSource w' t = g_errorSource w t.
Proof.
  cbv zeta.
  destruct c as [t0 this type plug downstream|t0 this|t0 this e|t0 this error
                |m|m]; cbn [run_Call on_other_thread call_thread];
    intros Hne; try done.
  - destruct (cancellation_requested t0 w) eqn:Hc.
    + by rewrite Process_ctor_cancelled.
    + rewrite Process_ctor_runs by done. unfold world. simpl.
      by rewrite fn_lookup_insert_ne.
  - rewrite Process_dtor_runs. unfold world. simpl.
    rewrite fn_lookup_insert_ne by done.
    destruct (parent this w); simpl; [done|].
    by rewrite fn_lookup_insert_ne.
  - destruct (decide (e = Cancelled)) as [->|He]; [done|].
    rewrite handleException_world by done. unfold emitError.
    destruct (emitError_loop_logs fuel t0 this (error_message e)
                (m_downstream this) (world (recordErrorSource t0 this w)))
      as (evs & _ & -> & _).
    destruct (recordErrorSource_source t0 this w) as (_ & _ & _ & Hoth).
    simpl. rewrite (Hoth t) by done.
    rewrite recordErrorSource_runs. unfold world. simpl.
    by destruct (g_errorSource w t0).
  - unfold emitError.
    destruct (emitError_loop_logs fuel t0 this error (m_downstream this) w)
      as (evs & _ & -> & _).
    by simpl.
Qed.

(** X12: the current Process, the recorded error source and the
    cancellation handle of a thread are thread-local: whatever
    constructions, destructions, [handleException] and [emitError] calls
    other threads make, in whatever order and however they end, they stay
    as they are. *)
Theorem run_Calls_thread_local fuel cs w t :
  Forall (on_other_thread t) cs →
  let w' := run_Calls fuel cs w in
  current t w' = current t w ∧
  g_errorSource w' t = g_errorSource w t ∧
  cancellation_requested t w' = cancellation_requested t w.
Proof.
  cbv zeta. revert w. induction cs as [|c cs IH]; intros w Hcs; [done|].
  apply Forall_cons in Hcs as [Hc Hcs]. simpl.
  destruct (run_Call_other_thread fuel c w t Hc) as [Hts Hsrc].
  destruct (IH (world (run_Call fuel c w)) Hcs) as (Hcur & Hes & Hcan).
  unfold current, cancellation_requested in *.
  by rewrite Hcur, Hes, Hcan, Hts, Hsrc.
Qed.

Lemma run_Calls_thread_local_witness :
  let cs := [CallConstruct 0 7 "computeNode:compute" (Some 1%positive)
               (Some 4%positive);
             CallHandleException 0 sample_A (StdException "boom");
             CallConstruct 2 8 "computeNode:hash" (Some 2%positive) None;
             CallDestroy 0 7] in
  let w := world (Process_ctor 1 9 "computeNode:compute" (Some 3%positive)
                    None (sample_world [5]%positive)) in
  Forall (on_other_thread 1) cs ∧
  current 1 (run_Calls 4 cs w) = Some 9%positive ∧
  g_errorSource (run_Calls 4 cs w) 1 = None ∧
  cancellation_requested 1 (run_Calls 4 cs w) = false.
Proof.
  cbv zeta.
  assert (Hcs : Forall (on_other_thread 1)
    [CallConstruct 0 7 "computeNode:compute" (Some 1%positive)
       (Some 4%positive);
     CallHandleException 0 sample_A (StdException "boom");
     CallConstruct 2 8 "computeNode:hash" (Some 2%positive) None;
     CallDestroy 0 7]).
  { repeat apply Forall_cons_2; try apply Forall_nil_2;
      unfold on_other_thread; simpl; lia. }
  split; [exact Hcs|].
  destruct (run_Calls_thread_local 4 _
              (world (Process_ctor 1 9 "computeNode:compute"
                        (Some 3%positive) None (sample_world [5]%positive)))
              1 Hcs) as (Hcur & Hsrc & Hcan).
  split; [rewrite Hcur; reflexivity|].
  split; [rewrite Hsrc; reflexivity|].
  rewrite Hcan. reflexivity.
Defined.

(** X13: over calls from any threads, in any order and however they end,
    the registry stays a strictly ascending, duplicate-free sequence of
    addresses, only [registerMonitor] and [deregisterMonitor] change it,
    and the plug graph is never changed. *)
Theorem run_Calls_registry_invariant fuel cs w :
  FlatSet.wf (g_activeMonitors w) →
  let w' := run_Calls fuel cs w in
  StronglySorted Pos.lt (g_activeMonitors w') ∧
  NoDup (g_activeMonitors w') ∧
  graph w' = graph w ∧
  (Forall (λ c, ¬ changes_registry c) cs →
   g_activeMonitors w' = g_activeMonitors w).
Proof.
  cbv zeta. revert w. induction cs as [|c cs IH]; intros w Hwf.
  - repeat split; try done. by apply FlatSetFacts.wf_NoDup.
  - simpl. destruct (run_Call_frame fuel c w) as (Hg & Hsame & Hwf').
    destruct (IH (world (run_Call fuel c w)) (Hwf' Hwf))
      as (Hsorted & Hnd & Hg' & Hsame').
    repeat split; try done; [congruence|].
    intros [Hc Hcs]%Forall_cons. rewrite Hsame' by done. by apply Hsame.
Qed.

Lemma run_Calls_registry_invariant_witness :
  let cs := [CallRegisterMonitor 6; CallRegisterMonitor 2;
             CallConstruct 0 7 "computeNode:compute" (Some 1%positive) None;
             CallRegisterMonitor 6; CallDeregisterMonitor 9;
             CallEmitError 0 sample_A "boom"; CallRegisterMonitor 4] in
  FlatSet.wf (g_activeMonitors (sample_world [])) ∧
  g_activeMonitors (run_Calls 4 cs (sample_world [])) = [2; 4; 6]%positive ∧
  StronglySorted Pos.lt (g_activeMonitors (run_Calls 4 cs (sample_world []))).
Proof.
  cbv zeta. split; [apply FlatSetFacts.wf_nil|]. split; [reflexivity|].
  apply (run_Calls_registry_invariant 4 _ (sample_world [])).
  apply FlatSetFacts.wf_nil.
Defined.

Lemma run_Call_registered fuel c monitor w :
  monitorRegistered monitor (world (run_Call fuel c w)) =
  registered_after [c] monitor (monitorRegistered monitor w).
Proof.
  destruct (run_Call_frame fuel c w) as (_ & Hsame & _).
  destruct c as [t0 this type plug downstream|t0 this|t0 this e|t0 this error
                |m|m];
    try (apply monitorRegistered_ext; rewrite Hsame; [done|by intros []]).
  - cbn [run_Call registered_after]. rewrite registerMonitor_runs.
    unfold world. simpl.
    destruct (decide (m = monitor)) as [->|Hne].
    + apply monitorRegistered_true. simpl.
      apply FlatSetFacts.elem_of_insert. by left.
    + apply monitorRegistered_ext. simpl.
      rewrite FlatSetFacts.elem_of_insert. split; [|tauto].
      intros [->|]; done.
  - cbn [run_Call registered_after]. rewrite deregisterMonitor_runs.
    unfold world. simpl.
    destruct (decide (m = monitor)) as [->|Hne].
    + apply monitorRegistered_false. simpl.
      rewrite FlatSetFacts.elem_of_erase. tauto.
    + apply monitorRegistered_ext. simpl.
      rewrite FlatSetFacts.elem_of_erase. split; [tauto|].
      intros H. split; [congruence|done].
Qed.

(** X14: the registry behaves as a set under any series of calls: whether a
    monitor is registered afterwards is decided by the last
    [registerMonitor] or [deregisterMonitor] call for that monitor, however
    often it was registered before, and is what it was when there is no
    such call. *)
Theorem run_Calls_registered fuel cs monitor w :
  monitorRegistered monitor (run_Calls fuel cs w) =
  registered_after cs monitor (monitorRegistered monitor w).
Proof.
  revert w. induction cs as [|c cs IH]; intros w; [done|].
  simpl. rewrite IH, run_Call_registered. done.
Qed.
